(** * Notices of djc_helper: eligibility, tracker keys and the notice manager

    A shallow embedding of [notice.py]: the [Notice] record with its
    eligibility predicate [need_show], the tracker key [get_first_run_key],
    and the [NoticeManager] operations [load], [save], [show_notices] and
    [add_notice].

    Conventions of the embedding.
    - Python [str] values are [string]s (the UTF-8 bytes of the text).
    - A [datetime] is an instant [Z], counted in seconds on the naive local
      time line; a [timedelta] is a number of seconds.
    - A Python call that may raise returns an [outcome]; code that also
      touches the persistent first-run store runs in the monad [M].
    - The collaborators imported from other modules ([util], [update],
      [version], [first_run]) are interfaces (type classes); the functions of
      [notice.py] are defined over any implementation of them. *)

From Stdlib Require Import ZArith Ascii String List.
From stdpp Require Import base decidable option strings list gmap pretty sorting.

Local Open Scope Z_scope.

(** ** Exceptions and results *)

Inductive exn : Set :=
  | ValueError      (* strptime on a malformed timestamp *)
  | NameError       (* win32con is only imported on Windows *)
  | JSONDecodeError (* json.load on a file that is not JSON *)
  | OSError         (* open() failed *)
  | OverflowError.  (* datetime + timedelta left the range of datetime *)

Inductive outcome (A : Type) : Type :=
  | Ok (a : A)
  | Raise (e : exn).
Arguments Ok {A} a.
Arguments Raise {A} e.

Definition outcome_bind {A B} (x : outcome A) (k : A → outcome B) : outcome B :=
  match x with
  | Ok a => k a
  | Raise e => Raise e
  end.

(** ** class NoticeShowType *)

Module NoticeShowType.
Definition ONCE : string := "once".
Definition DAILY : string := "daily".
Definition WEEKLY : string := "weekly".
Definition MONTHLY : string := "monthly".
Definition ALWAYS : string := "always".
Definition DEPRECATED : string := "deprecated".
End NoticeShowType.
Import NoticeShowType.

(** The set comprehension over the class attributes that do not start with
    two underscores: the six tokens. *)
Definition valid_notice_show_type : gset string :=
  {[ ONCE; DAILY; WEEKLY; MONTHLY; ALWAYS; DEPRECATED ]}.

(** ** Collaborators *)

(** [util]: [parse_time] is [datetime.strptime] with the fixed format, which
    raises [ValueError] on text that is not a timestamp ([None] here);
    [format_time] is [strftime]; [datetime_in_range] tells whether an
    instant lies between [datetime.min] and [datetime.max]; [is_windows]
    tells the platform. *)
Class Util := {
  parse_time : string → option Z;
  format_time : Z → string;
  datetime_in_range : Z → bool;
  is_windows : bool;
}.

(** [version.now_version] and [update.version_less]. *)
Class Version := {
  now_version : string;
  version_less : string → string → bool;
}.

(** [first_run]: the four window queries and the reset, over a persistent
    store. Every query takes the key and the current instant and returns
    its answer with the store it leaves behind. *)
Class FirstRun (Store : Type) := {
  is_first_run : string → Z → Store → bool * Store;
  is_daily_first_run : string → Z → Store → bool * Store;
  is_weekly_first_run : string → Z → Store → bool * Store;
  is_monthly_first_run : string → Z → Store → bool * Store;
  reset_first_run : string → Store → Store;
}.

(** ** class Notice *)

Record Notice : Set := mkNotice {
  sender : string;
  title : string;
  message : string;
  send_at : string;
  show_type : string;
  open_url : string;
  expire_at : string;
  show_only_before_version : string;
}.

Definition get_first_run_key (self : Notice) : string :=
  "notice_need_show_" +:+ title self +:+ "_" +:+ send_at self.

(** [Notice.__init__]. *)
Definition Notice_init `{Version} : Notice := {|
  sender := "风之凌殇";
  title := "测试消息标题";
  message := "测试消息内容";
  send_at := "2021-05-11 00:00:00";
  show_type := ONCE;
  open_url := "";
  expire_at := "2121-05-11 00:00:00";
  show_only_before_version := now_version;
|}.

(** [Notice.__lt__]: both timestamps are parsed, [self]'s first. *)
Definition Notice_lt `{Util} (self other : Notice) : outcome bool :=
  match parse_time (send_at self) with
  | None => Raise ValueError
  | Some a =>
      match parse_time (send_at other) with
      | None => Raise ValueError
      | Some b => Ok (a <? b)
      end
  end.

(** ** The monad of code that uses the first-run store *)

Section Monad.
Context {Store : Type}.

Definition M (A : Type) : Type := Store → outcome A * Store.

Definition ret {A} (a : A) : M A := λ st, (Ok a, st).
Definition raise {A} (e : exn) : M A := λ st, (Raise e, st).
Definition bind {A B} (m : M A) (k : A → M B) : M B :=
  λ st, match m st with
        | (Ok a, st') => k a st'
        | (Raise e, st') => (Raise e, st')
        end.
(** A query of the tracker never raises. *)
Definition tracker (q : Store → bool * Store) : M bool :=
  λ st, let '(b, st') := q st in (Ok b, st').
End Monad.
Arguments M : clear implicits.

Notation "'let*' x := m 'in' k" := (bind m (λ x, k))
  (at level 100, x name, m at next level, right associativity, only parsing).

Section NoticeMethods.
Context `{Util, Version} {Store : Type} `{FirstRun Store}.

(** [Notice.need_show], with [now] the value of [get_now()]. *)
Definition need_show (now : Z) (self : Notice) : M Store bool :=
  let key := get_first_run_key self in
  match parse_time (expire_at self) with
  | None => raise ValueError
  | Some expire =>
      if now >? expire then ret false
      else if negb (bool_decide (show_only_before_version self = ""))
              && negb (version_less now_version (show_only_before_version self))
      then ret false
      else if bool_decide (show_type self = ONCE) then tracker (is_first_run key now)
      else if bool_decide (show_type self = DAILY) then tracker (is_daily_first_run key now)
      else if bool_decide (show_type self = WEEKLY) then tracker (is_weekly_first_run key now)
      else if bool_decide (show_type self = MONTHLY) then tracker (is_monthly_first_run key now)
      else if bool_decide (show_type self = ALWAYS) then ret true
      else if bool_decide (show_type self = DEPRECATED) then ret false
      else ret false
  end.

(** [Notice.reset_first_run]. *)
Definition Notice_reset_first_run (self : Notice) (st : Store) : Store :=
  reset_first_run (get_first_run_key self) st.
End NoticeMethods.

(** ** The builtin [sorted] on notices

    [sorted] is a stable sort that compares elements with [__lt__] only, and
    an exception raised by a comparison aborts it. The result of a stable
    sort is fixed by the order, so it is written here as a stable insertion
    sort: an element goes in front of the first one that is not smaller
    than it. As in Python, a list of fewer than two elements is never
    compared, and in a longer list every element is compared at least
    once. *)

Section Sorted.
Context `{Util}.

Fixpoint insert_sorted (x : Notice) (l : list Notice) : outcome (list Notice) :=
  match l with
  | [] => Ok [x]
  | y :: l' =>
      outcome_bind (Notice_lt y x) (λ b,
        if b then outcome_bind (insert_sorted x l') (λ r, Ok (y :: r))
        else Ok (x :: y :: l'))
  end.

Fixpoint sorted (l : list Notice) : outcome (list Notice) :=
  match l with
  | [] => Ok []
  | x :: l' => outcome_bind (sorted l') (insert_sorted x)
  end.
End Sorted.

(** ** Stored notices *)

(** A record of the notice file: a JSON object with string values, as the
    ordered list of its members. *)
Definition raw_notice : Set := list (string * string).

Inductive file_content : Set :=
  | NotJson
  | Json (records : list raw_notice).

(** The two files of the manager and the remote source.
    [cache_file] is [downloads_dir/notices.txt], [save_file] is
    [utils/notices.txt]; [None] is a missing file. [save_writable] tells
    whether [open(save_path, "w")] succeeds. *)
Record Files : Set := mkFiles {
  cache_file : option file_content;
  save_file : option file_content;
  save_writable : bool;
}.

(** [download.download_github_raw_content(save_path, dirpath)]: fetches the
    remote notice file into the cache directory, or raises. *)
Class Download := {
  download_github_raw_content : Files → outcome Files;
}.

(** Modelled from the spec: [data_struct.ConfigInterface] is not part of
    [notice.py]. Setting a member of a record on a notice: a member that
    names a field replaces the field, any other member is ignored. *)
Definition setattr (self : Notice) (key val : string) : Notice :=
  if bool_decide (key = "sender") then
    mkNotice val (title self) (message self) (send_at self) (show_type self)
             (open_url self) (expire_at self) (show_only_before_version self)
  else if bool_decide (key = "title") then
    mkNotice (sender self) val (message self) (send_at self) (show_type self)
             (open_url self) (expire_at self) (show_only_before_version self)
  else if bool_decide (key = "message") then
    mkNotice (sender self) (title self) val (send_at self) (show_type self)
             (open_url self) (expire_at self) (show_only_before_version self)
  else if bool_decide (key = "send_at") then
    mkNotice (sender self) (title self) (message self) val (show_type self)
             (open_url self) (expire_at self) (show_only_before_version self)
  else if bool_decide (key = "show_type") then
    mkNotice (sender self) (title self) (message self) (send_at self) val
             (open_url self) (expire_at self) (show_only_before_version self)
  else if bool_decide (key = "open_url") then
    mkNotice (sender self) (title self) (message self) (send_at self) (show_type self)
             val (expire_at self) (show_only_before_version self)
  else if bool_decide (key = "expire_at") then
    mkNotice (sender self) (title self) (message self) (send_at self) (show_type self)
             (open_url self) val (show_only_before_version self)
  else if bool_decide (key = "show_only_before_version") then
    mkNotice (sender self) (title self) (message self) (send_at self) (show_type self)
             (open_url self) (expire_at self) val
  else self.

(** Modelled from the spec: [ConfigInterface.auto_update_config] is not
    part of [notice.py]. Deserializing sets the members of the record one
    after the other, so unknown members are ignored and missing fields keep
    the value the constructor gave them. *)
Definition auto_update_config (self : Notice) (raw_config : raw_notice) : Notice :=
  fold_left (λ n kv, setattr n kv.1 kv.2) raw_config self.

(** Modelled from the spec: [data_struct.to_raw_type] is not part of
    [notice.py]. Serializing writes every field under its name. *)
Definition to_raw_type (v : Notice) : raw_notice :=
  [ ("sender", sender v); ("title", title v); ("message", message v);
    ("send_at", send_at v); ("show_type", show_type v); ("open_url", open_url v);
    ("expire_at", expire_at v);
    ("show_only_before_version", show_only_before_version v) ].

(** ** class NoticeManager *)

(** The decorator [try_except()]: an exception of the body is logged and
    swallowed; the state the body had reached stays. *)
Definition try_except {St A} (body : M St A) (st : St) : St :=
  (body st).2.

Section NoticeManager.
Context `{Util, Version, Download}.

Definition download_latest_notices (fs : Files) : outcome Files :=
  download_github_raw_content fs.

(** The body of [load]; the state is the collection with the files. *)
Definition load_body (from_remote : bool) : M (list Notice * Files) () :=
  λ '(notices, fs),
    match (if from_remote then download_latest_notices fs else Ok fs) with
    | Raise e => (Raise e, (notices, fs))
    | Ok fs' =>
        match (if from_remote then cache_file fs' else save_file fs') with
        | None => (Ok (), (notices, fs'))
        | Some NotJson => (Raise JSONDecodeError, (notices, fs'))
        | Some (Json records) =>
            let appended :=
              notices ++ map (auto_update_config Notice_init) records in
            match sorted appended with
            | Raise e => (Raise e, (appended, fs'))
            | Ok s => (Ok (), (s, fs'))
            end
        end
    end.

Definition load (from_remote : bool) (notices : list Notice) (fs : Files)
  : list Notice * Files :=
  try_except (load_body from_remote) (notices, fs).

(** [NoticeManager.__init__]: an empty collection, then [load]. *)
Definition NoticeManager_init (load_from_remote : bool) (fs : Files)
  : list Notice * Files :=
  load load_from_remote [] fs.

Definition save_body (notices : list Notice) : M Files () :=
  λ fs,
    if save_writable fs
    then (Ok (), mkFiles (cache_file fs)
                         (Some (Json (map to_raw_type notices)))
                         (save_writable fs))
    else (Raise OSError, fs).

Definition save (notices : list Notice) (fs : Files) : Files :=
  try_except (save_body notices) fs.

(** One call of [message_box]. *)
Record MessageBox : Set := mkMessageBox {
  mb_msg : string;
  mb_title : string;
  mb_open_url : string;
}.

Definition box_title (idx total : nat) (notice : Notice) : string :=
  "公告(" +:+ pretty (idx + 1)%nat +:+ "/" +:+ pretty total
    +:+ ") - " +:+ title notice.

Context {Store : Type} `{FirstRun Store}.

(** [list(filter(lambda notice: notice.need_show(), self.notices))]. *)
Fixpoint filter_need_show (now : Z) (notices : list Notice)
  : M Store (list Notice) :=
  match notices with
  | [] => ret []
  | notice :: rest =>
      let* b := need_show now notice in
      let* valid := filter_need_show now rest in
      ret (if b then notice :: valid else valid)
  end.

(** The display loop. [win32con] exists only on Windows: elsewhere the
    first iteration raises before any box is shown. *)
Definition show_boxes (valid_notices : list Notice) : outcome (list MessageBox) :=
  match valid_notices with
  | [] => Ok []
  | _ =>
      if is_windows
      then Ok (imap (λ idx notice,
                 mkMessageBox (message notice)
                   (box_title idx (length valid_notices) notice)
                   (open_url notice)) valid_notices)
      else Raise NameError
  end.

(** The body of [show_notices]: the boxes shown, in order. *)
Definition show_notices_body (now : Z) (notices : list Notice)
  : M Store (list MessageBox) :=
  let* valid_notices := filter_need_show now notices in
  match show_boxes valid_notices with
  | Ok boxes => ret boxes
  | Raise e => raise e
  end.

Definition show_notices (now : Z) (notices : list Notice) (st : Store)
  : list MessageBox * Store :=
  match show_notices_body now notices st with
  | (Ok boxes, st') => (boxes, st')
  | (Raise _, st') => ([], st')
  end.
End NoticeManager.

(** What [add_notice] writes to the log. *)
Inductive add_log : Set :=
  | LogInvalidShowType (show_type : string)
  | LogDuplicate (old_notice : Notice)
  | LogAdded (notice : Notice).

Section AddNotice.
Context `{Util}.

Definition days (n : Z) : Z := n * 86400.

(** The loop over the old notices: the first one with the same title,
    message and sender. *)
Definition find_duplicate (notices : list Notice) (title' message' sender' : string)
  : option Notice :=
  List.find (λ old_notice,
               bool_decide (title old_notice = title')
               && bool_decide (message old_notice = message')
               && bool_decide (sender old_notice = sender')) notices.

(** [NoticeManager.add_notice], on the collection as state; the value is
    what was logged. The defaults of the Python signature are written out
    by the caller; [valid_duration] is [None] or a [timedelta], and a zero
    [timedelta] is false like [None]. Adding the duration to now raises
    when the sum is no [datetime]. *)
Definition add_notice (now : Z)
    (title' message' sender' send_at' show_type' open_url' : string)
    (valid_duration : option Z) (show_only_before_version' : string)
  : M (list Notice) add_log :=
  λ notices,
    let send_at' :=
      if bool_decide (send_at' = "") then format_time now else send_at' in
    let valid_duration :=
      match valid_duration with
      | None => days 7
      | Some d => if d =? 0 then days 7 else d
      end in
    if negb (bool_decide (show_type' ∈ valid_notice_show_type))
    then (Ok (LogInvalidShowType show_type'), notices)
    else match find_duplicate notices title' message' sender' with
         | Some old_notice => (Ok (LogDuplicate old_notice), notices)
         | None =>
             if datetime_in_range (now + valid_duration)
             then
               let notice := {|
                 sender := sender';
                 title := title';
                 message := message';
                 send_at := send_at';
                 show_type := show_type';
                 open_url := open_url';
                 expire_at := format_time (now + valid_duration);
                 show_only_before_version := show_only_before_version';
               |} in
               (Ok (LogAdded notice), notices ++ [notice])
             else (Raise OverflowError, notices)
         end.
End AddNotice.

(** ** The entry points [main] and [test] *)

Definition main_title : string := "活动周期说明-v3".

Definition main_message : string := "最近不少朋友又再问为啥领不到东西，可能没注意到上次的公告，这里再发一次-。-

也许你会注意到最近蚊子腿领的比较少，这是很正常的=、=下面我介绍下DNF的蚊子腿活动的周期
一般在每年的春节套、五一套、周年庆、国庆套这几个大版本时间点，会出比较多的蚊子腿活动，比如集合站、wegame、qq视频、集卡、心悦等，而在这些时间点之间，有时候会啥活动也不出，连着一两个月都没有啥东西

按照往年经验，基本可以确定，在9.22（国庆套版本）之前是不会有啥活动了

-------------------

前段时间特地还在colg发过一个统计帖，统计了2020.8至今的活动分布，可以发现每年的7月到9月22号之前，都是基本没啥活动的-。-
有兴趣的朋友可以看看那个帖子： https://bbs.colg.cn/thread-8551016-1-1.html

另外说下现在还有的活动:
1. 道聚城（迷你蚊子腿，几乎可以忽略）
2. 心悦特权专区（做任务获取成就点来兑换道具，充钱获取勇士币来兑换道具，以及每周每月的礼包）
3. 心悦app（每日10个雷米，5个复活币，3个霸王契约，需抓包配置心悦app请求包）
4. 黑钻礼包（每月的迷你蚊子腿）
5. 腾讯游戏信用礼包（每月的迷你蚊子腿）
6. 小酱油（周礼包的变大药水和每年一次的生日礼包）
7. DNF助手编年史（目前常驻的助手活动，每达到新的等级可以领取新的东西，需要配置助手token等参数，目前只能抓包获取）
8. DNF马杰洛的规划（不手动参与拉回流几乎领不到啥）
9. 超级会员（一次性见面奖励，此外买会员可以兑换东西）
10. qq视频-爱玩（一次性见面奖励，此外买会员可以兑换东西）

其中上面的又可以细分为

每日可以领到的：
1. 心悦app

隔几日就能领到的：
1. DNF助手编年史（升级时）
2. 心悦特权专区

每周可以领到的
1. 道聚城
2. 小酱油
3. 心悦特权专区

每月可以领到的
1. 心悦特权专区
2. 黑钻礼包
3. 腾讯游戏信用礼包

一次性活动
1. 超级会员
2. qq视频-爱玩
".

Section EntryPoints.
Context `{Util, Version, Download}.

(** [main], with [now] the value of [get_now()] behind [format_now()] and
    [add_notice]. An exception of [add_notice] leaves [main] before
    [save]. *)
Definition main (now : Z) : M Files () :=
  λ fs,
    let '(notices, fs) := NoticeManager_init false fs in
    let title' := main_title in
    let message' := main_message in
    let open_url' := "" in
    let show_only_before_version' := "" in
    let added : outcome () * list Notice :=
      if negb (bool_decide (title' = ""))
      then
        let '(logged, notices) :=
          add_notice now title' message' "风之凌殇" (format_time now) ONCE
                     open_url' (Some (days 7)) show_only_before_version' notices in
        (outcome_bind logged (λ _, Ok ()), notices)
      else (Ok (), notices) in
    match added with
    | (Raise e, _) => (Raise e, fs)
    | (Ok _, notices) => (Ok (), save notices fs)
    end.

Context {Store : Type} `{FirstRun Store}.


End EntryPoints.

(** * Implementations of the collaborators

    The modules behind the interfaces are not part of [notice.py]. The
    implementations below follow their description and give the
    interfaces concrete inhabitants. *)

(** ** Timestamps *)

(** Modelled from the spec: [util.parse_time] and [util.format_time] are
    missing; timestamps have the fixed, sortable textual format
    [YYYY-MM-DD HH:MM:SS]. The instant of a timestamp is its number of
    seconds since 1970-01-01 00:00:00 in the proleptic Gregorian calendar. *)
Module Calendar.
Definition is_leap (y : Z) : bool :=
  ((y mod 4 =? 0) && negb (y mod 100 =? 0)) || (y mod 400 =? 0).

Definition days_in_month (y m : Z) : Z :=
  if m =? 2 then (if is_leap y then 29 else 28)
  else if (m =? 4) || (m =? 6) || (m =? 9) || (m =? 11) then 30
  else 31.

Definition days_from_civil (y m d : Z) : Z :=
  let y' := if m <=? 2 then y - 1 else y in
  let era := y' / 400 in
  let yoe := y' - era * 400 in
  let doy := (153 * (if 2 <? m then m - 3 else m + 9) + 2) / 5 + d - 1 in
  let doe := yoe * 365 + yoe / 4 - yoe / 100 + doy in
  era * 146097 + doe - 719468.

Definition civil_from_days (z : Z) : Z * Z * Z :=
  let z := z + 719468 in
  let era := z / 146097 in
  let doe := z - era * 146097 in
  let yoe := (doe - doe / 1460 + doe / 36524 - doe / 146096) / 365 in
  let doy := doe - (365 * yoe + yoe / 4 - yoe / 100) in
  let mp := (5 * doy + 2) / 153 in
  let d := doy - (153 * mp + 2) / 5 + 1 in
  let m := if mp <? 10 then mp + 3 else mp - 9 in
  let y := yoe + era * 400 in
  (if m <=? 2 then y + 1 else y, m, d).

Definition digit (c : ascii) : option Z :=
  let n := Z.of_N (N_of_ascii c) in
  if (48 <=? n) && (n <=? 57) then Some (n - 48) else None.

Definition number2 (a b : ascii) : option Z :=
  x ← digit a; y ← digit b; Some (10 * x + y).

(** Modelled from the spec: [util.parse_time] is missing. The text must
    have the nineteen characters of the format and name a day of the
    calendar and a time of the day. *)
Definition parse_time (time_str : string) : option Z :=
  match list_ascii_of_string time_str with
  | [y1; y2; y3; y4; p1; m1; m2; p2; d1; d2; p3; h1; h2; p4; i1; i2; p5; s1; s2] =>
      guard ([p1; p2; p3; p4; p5] = ["-"; "-"; " "; ":"; ":"]%char);;
      yh ← number2 y1 y2; yl ← number2 y3 y4;
      mo ← number2 m1 m2; d ← number2 d1 d2;
      h ← number2 h1 h2; mi ← number2 i1 i2; s ← number2 s1 s2;
      let y := 100 * yh + yl in
      if (1 <=? y) && (1 <=? mo) && (mo <=? 12)
         && (1 <=? d) && (d <=? days_in_month y mo)
         && (h <? 24) && (mi <? 60) && (s <? 60)
      then Some (days_from_civil y mo d * 86400 + h * 3600 + mi * 60 + s)
      else None
  | _ => None
  end.

Definition pad2 (n : Z) : string :=
  if n <? 10 then "0" +:+ pretty n else pretty n.

Definition pad4 (n : Z) : string :=
  if n <? 10 then "000" +:+ pretty n
  else if n <? 100 then "00" +:+ pretty n
  else if n <? 1000 then "0" +:+ pretty n
  else pretty n.

(** Modelled from the spec: [util.format_time] is missing. *)
Definition format_time (t : Z) : string :=
  let '(y, m, d) := civil_from_days (t / 86400) in
  let r := t mod 86400 in
  pad4 y +:+ "-" +:+ pad2 m +:+ "-" +:+ pad2 d +:+ " "
    +:+ pad2 (r / 3600) +:+ ":" +:+ pad2 (r mod 3600 / 60)
    +:+ ":" +:+ pad2 (r mod 60).

(** [datetime.min] is 0001-01-01 00:00:00 and [datetime.max] is the last
    second of the year 9999. *)
Definition in_range (t : Z) : bool :=
  (days_from_civil 1 1 1 * 86400 <=? t) && (t <? days_from_civil 10000 1 1 * 86400).

(** The calendar day, week (from Monday) and month of an instant. *)
Definition day_of (t : Z) : Z := t / 86400.
Definition week_of (t : Z) : Z := (day_of t + 3) / 7.
Definition month_of (t : Z) : Z :=
  let '(y, m, _) := civil_from_days (day_of t) in y * 12 + m.
End Calendar.

Definition windows_util : Util := {|
  parse_time := Calendar.parse_time;
  format_time := Calendar.format_time;
  datetime_in_range := Calendar.in_range;
  is_windows := true;
|}.

(** The same on a platform without [win32con]. *)
Definition posix_util : Util := {|
  parse_time := Calendar.parse_time;
  format_time := Calendar.format_time;
  datetime_in_range := Calendar.in_range;
  is_windows := false;
|}.

(** ** Versions *)

(** Modelled from the spec: [update.version_less] and [version.now_version]
    are missing; the comparator is a strict total order over dotted version
    strings. A version is read as the list of the decimal numbers between
    its dots (characters other than digits and dots are skipped), and lists
    compare like Python lists. *)
Module DottedVersion.
Fixpoint read (version : string) (acc : Z) : list Z :=
  match version with
  | EmptyString => [acc]
  | String c rest =>
      if bool_decide (c = "."%char) then acc :: read rest 0
      else match Calendar.digit c with
           | Some d => read rest (10 * acc + d)
           | None => read rest acc
           end
  end.

Definition version_to_version_int_list (version : string) : list Z :=
  read version 0.

Fixpoint list_less (a b : list Z) : bool :=
  match a, b with
  | [], [] => false
  | [], _ :: _ => true
  | _ :: _, [] => false
  | x :: a', y :: b' => (x <? y) || ((x =? y) && list_less a' b')
  end.

(** Modelled from the spec: [update.version_less] is missing. *)
Definition version_less (v1 v2 : string) : bool :=
  list_less (version_to_version_int_list v1) (version_to_version_int_list v2).
End DottedVersion.

Definition dotted_version (current : string) : Version := {|
  now_version := current;
  version_less := DottedVersion.version_less;
|}.

(** ** The first-run tracker *)

(** Modelled from the spec: the module [first_run] is missing. The tracker
    is a persistent map from a key to the instant the key last triggered.
    A query for a key answers true when the key has no record, or when its
    record lies in another calendar window than now (never, for the
    one-time window); it records now for the key exactly when it answers
    true. A reset removes the record of the key. *)
Module Tracker.
Inductive Window : Set := ONE_TIME | DAY | WEEK | MONTH.

Definition same_window (w : Window) (stored now : Z) : bool :=
  match w with
  | ONE_TIME => true
  | DAY => Calendar.day_of stored =? Calendar.day_of now
  | WEEK => Calendar.week_of stored =? Calendar.week_of now
  | MONTH => Calendar.month_of stored =? Calendar.month_of now
  end.

(** Modelled from the spec: the queries of [first_run] are missing. *)
Definition is_first_in_window (w : Window) (key : string) (now : Z)
    (db : gmap string Z) : bool * gmap string Z :=
  match db !! key with
  | None => (true, <[key := now]> db)
  | Some stored =>
      if same_window w stored now then (false, db)
      else (true, <[key := now]> db)
  end.

(** Modelled from the spec: [first_run.reset_first_run] is missing. *)
Definition reset (key : string) (db : gmap string Z) : gmap string Z :=
  delete key db.
End Tracker.

(** Modelled from the spec: the module [first_run], on the tracker. *)
Definition first_run_db : FirstRun (gmap string Z) := {|
  is_first_run := Tracker.is_first_in_window Tracker.ONE_TIME;
  is_daily_first_run := Tracker.is_first_in_window Tracker.DAY;
  is_weekly_first_run := Tracker.is_first_in_window Tracker.WEEK;
  is_monthly_first_run := Tracker.is_first_in_window Tracker.MONTH;
  reset_first_run := Tracker.reset;
|}.

(** A remote source that always delivers the same file. *)
Definition remote_source (remote : option file_content) : Download := {|
  download_github_raw_content fs :=
    match remote with
    | Some content => Ok (mkFiles (Some content) (save_file fs) (save_writable fs))
    | None => Raise OSError
    end;
|}.

(** * Vocabulary of the properties *)

(** A notice is version-eligible when it has no version ceiling or the
    current version is strictly below the ceiling. *)
Definition version_eligible `{Version} (self : Notice) : Prop :=
  show_only_before_version self = ""
  ∨ version_less now_version (show_only_before_version self) = true.

(** Whether a character occurs in a string. *)
Fixpoint occurs (c : ascii) (s : string) : bool :=
  match s with
  | EmptyString => false
  | String c' s' => bool_decide (c = c') || occurs c s'
  end.

(** Whether [add_notice] logged an error and returned early. *)
Definition is_refusal (log : add_log) : Prop :=
  match log with
  | LogAdded _ => False
  | _ => True
  end.

(** An existing notice has the given title, message and sender. *)
Definition same_triple (title' message' sender' : string) (old_notice : Notice) : Prop :=
  title old_notice = title' ∧ message old_notice = message'
  ∧ sender old_notice = sender'.

(** The notice was sent at the instant [t]. *)
Definition sent_at `{Util} (t : Z) (notice : Notice) : Prop :=
  parse_time (send_at notice) = Some t.

#[export] Instance sent_at_dec `{Util} t notice : Decision (sent_at t notice).
Proof. unfold sent_at. apply _. Defined.

(** The [send_at] of the notice is a timestamp. *)
Definition has_timestamp `{Util} (notice : Notice) : Prop :=
  is_Some (parse_time (send_at notice)).

(** The order of the collection: by the parsed [send_at]. *)
Definition send_at_le `{Util} (a b : Notice) : Prop :=
  ∃ x y, sent_at x a ∧ sent_at y b ∧ x ≤ y.

(** The records [load] gets to read: none when the download raises, the
    file is missing or the file is not JSON. *)
Definition read_notices `{Download} (from_remote : bool) (fs : Files)
  : option (list raw_notice) :=
  match (if from_remote then download_latest_notices fs else Ok fs) with
  | Raise _ => None
  | Ok fs' =>
      match (if from_remote then cache_file fs' else save_file fs') with
      | Some (Json records) => Some records
      | _ => None
      end
  end.

(** The collection of [load] before it sorts: the old notices, then the
    notices of the file in the order of the file. *)
Definition appended_notices `{Version, Download} (from_remote : bool)
    (notices : list Notice) (fs : Files) : list Notice :=
  notices ++ match read_notices from_remote fs with
             | Some records => map (auto_update_config Notice_init) records
             | None => []
             end.

(** The three values [add_notice] compares. *)
Definition triple (notice : Notice) : string * string * string :=
  (title notice, message notice, sender notice).

(** The [expire_at] of the notice is a timestamp. *)
Definition has_expiry `{Util} (notice : Notice) : Prop :=
  is_Some (parse_time (expire_at notice)).

(** The show types with a window in the tracker. *)
Definition tracked_show_type : gset string := {[ ONCE; DAILY; WEEKLY; MONTHLY ]}.

(** The notices a local [load] would deserialize from the files. *)
Definition saved_notices `{Version} (fs : Files) : list Notice :=
  match save_file fs with
  | Some (Json records) => map (auto_update_config Notice_init) records
  | _ => []
  end.


(** The duration [add_notice] uses: seven days for [None] and for the zero
    [timedelta]. *)
Definition effective_duration (valid_duration : option Z) : Z :=
  match valid_duration with
  | None => days 7
  | Some d => if d =? 0 then days 7 else d
  end.



(** The notices [show_notices] has to show: [need_show] is asked of every
    notice in the order of the collection, each on the store the notices
    before it left behind, and the notices that answered true are kept, in
    that order. [eligible_in_order now notices st valid st'] says that this
    run over [notices] from the store [st] keeps [valid] and ends in the
    store [st']. *)
Inductive eligible_in_order `{Util, Version} {Store : Type} `{FirstRun Store}
    (now : Z) : list Notice → Store → list Notice → Store → Prop :=
  | eligible_nil st :
      eligible_in_order now [] st [] st
  | eligible_shown notice rest st st1 valid st' :
      need_show now notice st = (Ok true, st1) →
      eligible_in_order now rest st1 valid st' →
      eligible_in_order now (notice :: rest) st (notice :: valid) st'
  | eligible_hidden notice rest st st1 valid st' :
      need_show now notice st = (Ok false, st1) →
      eligible_in_order now rest st1 valid st' →
      eligible_in_order now (notice :: rest) st valid st'.

(** * Sample data *)

Module Sample.
(** 2021-06-01 00:00:00. *)
Definition now : Z := 1622505600.

Definition release : Version := dotted_version "20.1.2".

(** The two notices of the scenario: A is shown once, B always. *)
Definition notice_A : Notice :=
  mkNotice "风之凌殇" "A" "first" "2021-01-01 00:00:00" ONCE ""
           "2121-05-11 00:00:00" "".

Definition notice_B : Notice :=
  mkNotice "风之凌殇" "B" "second" "2021-06-01 00:00:00" ALWAYS "https://example.org"
           "2121-05-11 00:00:00" "".

(** A notice that expired two weeks before [now]. *)
Definition notice_old : Notice :=
  mkNotice "风之凌殇" "old" "gone" "2021-05-11 00:00:00" ALWAYS ""
           "2021-05-18 00:00:00" "".

Definition notice_deprecated : Notice :=
  mkNotice "风之凌殇" "dep" "never" "2021-05-11 00:00:00" DEPRECATED ""
           "2121-05-11 00:00:00" "".

(** A record of the file that names only two fields. *)
Definition raw_short : raw_notice :=
  [("title", "hello"); ("show_type", "always")].

(** The local file holds B before A; nothing can be downloaded. *)
Definition files : Files :=
  mkFiles None (Some (Json [to_raw_type notice_B; to_raw_type notice_A])) true.

Definition offline : Download := remote_source None.

(** The remote file holds the two notices of the scenario. *)
Definition online : Download :=
  remote_source (Some (Json [to_raw_type notice_B; to_raw_type notice_A])).

(** Notices with a field that is no timestamp. *)
Definition notice_no_expiry : Notice :=
  mkNotice "风之凌殇" "E" "when" "2021-05-11 00:00:00" ALWAYS "" "never" "".

Definition notice_no_send_at : Notice :=
  mkNotice "风之凌殇" "S" "soon" "soon" ALWAYS "" "2121-05-11 00:00:00" "".

Definition files_no_send_at : Files :=
  mkFiles None
          (Some (Json [to_raw_type notice_B; to_raw_type notice_no_send_at]))
          true.

(** The notice [add_notice] builds at [now] for title C, with the seven
    days of the default. *)
Definition notice_C : Notice :=
  mkNotice "风之凌殇" "C" "third" "2021-06-01 00:00:00" ALWAYS ""
           "2021-06-08 00:00:00" "".

(** Two notices with one key. *)
Definition notice_v1 : Notice :=
  mkNotice "u" "v1" "m" "beta_2021-05-11 00:00:00" ONCE ""
           "2121-05-11 00:00:00" "".

Definition notice_v1_beta : Notice :=
  mkNotice "u" "v1_beta" "m" "2021-05-11 00:00:00" ONCE ""
           "2121-05-11 00:00:00" "".
End Sample.

(** * Properties *)

(** ** The eligibility predicate *)

Section NeedShow.
Context `{Util, Version} {Store : Type} `{FirstRun Store}.
Implicit Types (self : Notice) (st : Store) (now expire : Z).

Lemma version_gate_open self :
  version_eligible self →
  negb (bool_decide (show_only_before_version self = ""))
    && negb (version_less now_version (show_only_before_version self)) = false.
Proof.
  intros [-> | ->]; [done|]. by rewrite andb_false_r.
Qed.

(** Past the expiry and version checks, [need_show] is the dispatch. *)
Lemma need_show_dispatch now self expire :
  parse_time (expire_at self) = Some expire →
  now ≤ expire →
  version_eligible self →
  need_show now self =
    if bool_decide (show_type self = ONCE) then tracker (is_first_run (get_first_run_key self) now)
    else if bool_decide (show_type self = DAILY) then tracker (is_daily_first_run (get_first_run_key self) now)
    else if bool_decide (show_type self = WEEKLY) then tracker (is_weekly_first_run (get_first_run_key self) now)
    else if bool_decide (show_type self = MONTHLY) then tracker (is_monthly_first_run (get_first_run_key self) now)
    else if bool_decide (show_type self = ALWAYS) then ret true
    else ret false.
Proof.
  intros Hparse Hle Hver. unfold need_show. rewrite Hparse.
  destruct (Z.gtb_spec now expire) as [Hgt|_]; [lia|].
  rewrite (version_gate_open _ Hver).
  by repeat case_bool_decide.
Qed.

(** The expiry check comes first and returns at once. *)
Lemma need_show_past_expiry now self expire :
  parse_time (expire_at self) = Some expire →
  expire < now →
  need_show now self = ret false.
Proof.
  intros Hparse Hlt. unfold need_show. rewrite Hparse.
  destruct (Z.gtb_spec now expire) as [_|Hle]; [done | lia].
Qed.

(** C1. An expired notice is never shown: when [expire_at] lies strictly
    before now, [need_show] returns false whatever the show type and the
    version ceiling are, and for every tracker and every store; the store
    is returned as it was, so no window is consulted or consumed. *)
Theorem need_show_expired now self expire st :
  parse_time (expire_at self) = Some expire →
  expire < now →
  need_show now self st = (Ok false, st).
Proof.
  intros Hparse Hlt. by rewrite (need_show_past_expiry _ _ _ Hparse Hlt).
Qed.

(** C3. An unexpired, version-eligible ALWAYS notice is shown on every
    call: [need_show] returns true from every store and returns the store
    as it was, so the answer from any two stores is the same, also after
    a reset of the notice's key. *)
Theorem need_show_always now self expire :
  show_type self = ALWAYS →
  parse_time (expire_at self) = Some expire →
  now ≤ expire →
  version_eligible self →
  (∀ st, need_show now self st = (Ok true, st))
  ∧ (∀ st st', (need_show now self st).1 = (need_show now self st').1)
  ∧ (∀ st, need_show now self (Notice_reset_first_run self st)
           = (Ok true, Notice_reset_first_run self st)).
Proof.
  intros Hty Hparse Hle Hver.
  assert (Hall : ∀ st, need_show now self st = (Ok true, st)).
  { intros st. rewrite (need_show_dispatch _ _ _ Hparse Hle Hver), Hty. done. }
  split; [done|]. split; [|done].
  intros st st'. by rewrite !Hall.
Qed.

(** A show type that is DEPRECATED or unknown leaves only the parse of
    [expire_at] to decide between false and the exception. *)
Lemma need_show_no_window now self :
  show_type self = DEPRECATED ∨ show_type self ∉ valid_notice_show_type →
  need_show now self =
    match parse_time (expire_at self) with
    | None => raise ValueError
    | Some _ => ret false
    end.
Proof.
  intros Hty. unfold need_show.
  destruct (parse_time (expire_at self)) as [expire|]; [|done].
  destruct (now >? expire); [done|].
  destruct (_ && _); [done|].
  destruct Hty as [Hty | Hty].
  - rewrite Hty. done.
  - unfold valid_notice_show_type in Hty.
    repeat case_bool_decide; try done; exfalso; apply Hty; set_solver.
Qed.

(** C4. A DEPRECATED notice, and a notice whose show type is none of the
    six tokens, is never shown: from no store does [need_show] return true
    or change the store, and with [expire_at] a timestamp it returns false
    from every store, also right after [reset_first_run]. *)
Theorem need_show_deprecated now self :
  show_type self = DEPRECATED ∨ show_type self ∉ valid_notice_show_type →
  (∀ st, (need_show now self st).1 ≠ Ok true ∧ (need_show now self st).2 = st)
  ∧ (∀ expire, parse_time (expire_at self) = Some expire →
       (∀ st, need_show now self st = (Ok false, st))
       ∧ (∀ st, need_show now self (Notice_reset_first_run self st)
                = (Ok false, Notice_reset_first_run self st))).
Proof.
  intros Hty. rewrite (need_show_no_window _ _ Hty). split.
  - intros st. by destruct (parse_time (expire_at self)).
  - by intros expire ->.
Qed.

(** A version ceiling that the current version has reached closes the
    gate. *)
Lemma need_show_version_gate now self :
  show_only_before_version self ≠ "" →
  version_less now_version (show_only_before_version self) = false →
  need_show now self =
    match parse_time (expire_at self) with
    | None => raise ValueError
    | Some _ => ret false
    end.
Proof.
  intros Hne Hless. unfold need_show.
  destruct (parse_time (expire_at self)) as [expire|]; [|done].
  destruct (now >? expire); [done|].
  by rewrite Hless, bool_decide_eq_false_2.
Qed.
End NeedShow.

(** ** Notices built by the constructor *)

Section DefaultNotice.
Context `{Util, Version} {Store : Type} `{FirstRun Store}.

Lemma setattr_other_field self key val :
  key ≠ "show_only_before_version" →
  show_only_before_version (setattr self key val) = show_only_before_version self.
Proof.
  intros Hkey. unfold setattr. by repeat case_bool_decide.
Qed.

Lemma auto_update_config_keeps_version raw self :
  "show_only_before_version" ∉ raw.*1 →
  show_only_before_version (auto_update_config self raw)
  = show_only_before_version self.
Proof.
  unfold auto_update_config. revert self.
  induction raw as [|[key val] raw IH]; intros self Hraw; [done|].
  cbn. rewrite IH.
  - apply setattr_other_field. intros ->. apply Hraw. cbn. left.
  - intros Hin. apply Hraw. cbn. by right.
Qed.

(** C10. The constructor sets [show_only_before_version] to the current
    version, and a deserialized record without that member keeps it. With
    a current version that is not empty and not below itself, the version
    check fails for every notice with this ceiling: at every instant and
    for every show type, expired or not, [need_show] returns true from no
    store and leaves the store as it was, and with [expire_at] a timestamp
    it returns false. *)
Theorem default_notice_never_shown :
  show_only_before_version Notice_init = now_version
  ∧ (∀ raw : raw_notice,
       "show_only_before_version" ∉ raw.*1 →
       show_only_before_version (auto_update_config Notice_init raw) = now_version)
  ∧ (now_version ≠ "" →
     version_less now_version now_version = false →
     ∀ (self : Notice) (now : Z) (st : Store),
       show_only_before_version self = now_version →
       (need_show now self st).1 ≠ Ok true
       ∧ (need_show now self st).2 = st
       ∧ ∀ expire, parse_time (expire_at self) = Some expire →
                   need_show now self st = (Ok false, st)).
Proof.
  split_and!; [done| |].
  - intros raw Hraw. by rewrite auto_update_config_keeps_version.
  - intros Hne Hirr self now st Hver.
    rewrite need_show_version_gate by (rewrite Hver; done).
    destruct (parse_time (expire_at self)); split_and!; try done.
Qed.
End DefaultNotice.

(** ** ONCE notices on the first-run tracker *)

Section Once.
Context `{Util, Version}.
Local Existing Instance first_run_db.

(** C2. For an unexpired, version-eligible ONCE notice whose key has no
    record, the first [need_show] returns true and records the key; a
    second call on the store it leaves behind, at any instant, returns
    false and changes nothing. *)
Theorem need_show_once_twice (now now' expire : Z) (self : Notice)
    (db : gmap string Z) :
  show_type self = ONCE →
  parse_time (expire_at self) = Some expire →
  now ≤ expire →
  version_eligible self →
  db !! get_first_run_key self = None →
  let db' := <[get_first_run_key self := now]> db in
  need_show now self db = (Ok true, db')
  ∧ need_show now' self db' = (Ok false, db').
Proof.
  intros Hty Hparse Hle Hver Hfresh db'. split.
  - rewrite (need_show_dispatch _ _ _ Hparse Hle Hver), Hty.
    rewrite bool_decide_eq_true_2 by done. cbn.
    unfold tracker, Tracker.is_first_in_window. by rewrite Hfresh.
  - destruct (Z.lt_ge_cases expire now') as [Hlt | Hge].
    + by rewrite (need_show_past_expiry _ _ _ Hparse Hlt).
    + rewrite (need_show_dispatch _ _ _ Hparse Hge Hver), Hty.
      rewrite bool_decide_eq_true_2 by done. cbn.
      unfold tracker, Tracker.is_first_in_window, db'.
      by rewrite lookup_insert_eq.
Qed.
End Once.

(** ** The tracker key *)

Section FirstRunKey.
Implicit Types (a b : Notice) (s t : string).

Lemma append_nil s : "" +:+ s = s.
Proof. reflexivity. Qed.

Lemma append_cons c s t : String c s +:+ t = String c (s +:+ t).
Proof. reflexivity. Qed.

Lemma occurs_middle c t s : occurs c (t +:+ String c s) = true.
Proof.
  induction t as [|c' t IH].
  - rewrite append_nil. cbn [occurs]. by rewrite bool_decide_eq_true_2.
  - rewrite append_cons. cbn [occurs]. rewrite IH. apply orb_true_r.
Qed.

(** A separator that does not occur in the second part splits a string
    in one way only. *)
Lemma split_at_last c t1 t2 s1 s2 :
  occurs c s1 = false →
  occurs c s2 = false →
  t1 +:+ String c s1 = t2 +:+ String c s2 →
  t1 = t2 ∧ s1 = s2.
Proof.
  intros Hs1 Hs2. revert t2.
  induction t1 as [|x t1 IH]; intros [|y t2] Heq;
    rewrite ?append_nil, ?append_cons in Heq.
  - by injection Heq as ->.
  - injection Heq as -> ->. by rewrite occurs_middle in Hs1.
  - injection Heq as -> <-. by rewrite occurs_middle in Hs2.
  - injection Heq as -> Heq. destruct (IH _ Heq) as [-> ->]. done.
Qed.

(** C5, as amended. Two notices with the same title and the same
    [send_at] have the same key; and when no [send_at] contains an
    underscore (no timestamp does), two notices with the same key have the
    same title and the same [send_at]. *)
Theorem get_first_run_key_injective a b :
  occurs "_" (send_at a) = false →
  occurs "_" (send_at b) = false →
  get_first_run_key a = get_first_run_key b
  ↔ title a = title b ∧ send_at a = send_at b.
Proof.
  intros Ha Hb. unfold get_first_run_key. split.
  - intros Heq. apply (inj (String.append _)) in Heq.
    by apply (split_at_last "_").
  - by intros [-> ->].
Qed.

(** C5 does not hold for every [send_at]: the field is any string, and a
    title that ends like another [send_at] begins gives two distinct
    pairs one key. *)
Lemma get_first_run_key_collision :
  let a := mkNotice "u" "v1" "m" "beta_2021-05-11 00:00:00" ONCE "" "2121-05-11 00:00:00" "" in
  let b := mkNotice "u" "v1_beta" "m" "2021-05-11 00:00:00" ONCE "" "2121-05-11 00:00:00" "" in
  (title a, send_at a) ≠ (title b, send_at b)
  ∧ get_first_run_key a = get_first_run_key b.
Proof. split; [discriminate | reflexivity]. Qed.
End FirstRunKey.

(** ** Timestamps have no underscore *)

Section TimestampText.
Import Calendar.

Lemma digit_not_underscore c d :
  digit c = Some d → bool_decide ("_"%char = c) = false.
Proof.
  intros Hd. apply bool_decide_eq_false_2. intros <-. by vm_compute in Hd.
Qed.

Lemma number2_not_underscore a b n :
  number2 a b = Some n →
  bool_decide ("_"%char = a) = false ∧ bool_decide ("_"%char = b) = false.
Proof.
  unfold number2. intros Hn.
  destruct (digit a) as [x|] eqn:Ha; [|done].
  destruct (digit b) as [y|] eqn:Hb; [|done].
  split; by eapply digit_not_underscore.
Qed.

(** A text that the calendar parses contains no underscore, so the keys
    of notices with such a [send_at] do not collide. *)
Lemma timestamp_no_underscore time_str t :
  Calendar.parse_time time_str = Some t → occurs "_" time_str = false.
Proof.
  unfold Calendar.parse_time. intros Hp.
  rewrite <- (string_of_list_ascii_of_string time_str).
  destruct (list_ascii_of_string time_str) as [|y1 l]; [done|].
  do 18 (destruct l as [|? l]; [done|]). destruct l; [|done].
  case_guard as Hsep; [|done]. injection Hsep as -> -> -> -> ->.
  cbn [mbind option_bind] in Hp.
  repeat match type of Hp with
  | context [number2 ?a ?b] =>
      let Hn := fresh "Hn" in
      destruct (number2 a b) eqn:Hn; [|done];
      apply number2_not_underscore in Hn as [? ?]
  end.
  cbn [string_of_list_ascii occurs].
  repeat match goal with H : bool_decide _ = false |- _ => rewrite H; clear H end.
  reflexivity.
Qed.
End TimestampText.

(** ** Adding notices *)

Section AddNoticeFacts.
Context `{Util}.
Implicit Types (notices : list Notice) (now : Z).

Lemma find_duplicate_Some notices title' message' sender' old_notice :
  old_notice ∈ notices →
  same_triple title' message' sender' old_notice →
  ∃ first, find_duplicate notices title' message' sender' = Some first.
Proof.
  intros Hin (Ht & Hm & Hs). unfold find_duplicate.
  destruct (List.find _ notices) as [first|] eqn:Hfind; [by eexists|].
  apply list_elem_of_In in Hin.
  pose proof (find_none _ _ Hfind _ Hin) as Hno. cbn in Hno.
  by rewrite !bool_decide_eq_true_2 in Hno.
Qed.

Lemma find_duplicate_None notices title' message' sender' :
  (∀ old_notice, old_notice ∈ notices →
                 ¬ same_triple title' message' sender' old_notice) →
  find_duplicate notices title' message' sender' = None.
Proof.
  intros Hno. unfold find_duplicate.
  destruct (List.find _ notices) as [first|] eqn:Hfind; [|done].
  apply find_some in Hfind as [Hin Htriple].
  apply list_elem_of_In in Hin.
  exfalso. apply (Hno _ Hin).
  apply andb_prop in Htriple as [Htm Hs]. apply andb_prop in Htm as [Ht Hm].
  apply bool_decide_eq_true_1 in Ht, Hm, Hs. done.
Qed.

(** C6. [add_notice] with a show type outside the valid set returns
    normally after the error log, with the collection it was given: the
    same notices in the same order. *)
Theorem add_notice_invalid_show_type now notices
    title' message' sender' send_at' show_type' open_url'
    valid_duration show_only_before_version' :
  show_type' ∉ valid_notice_show_type →
  add_notice now title' message' sender' send_at' show_type' open_url'
             valid_duration show_only_before_version' notices
  = (Ok (LogInvalidShowType show_type'), notices).
Proof.
  intros Hty. unfold add_notice. by rewrite bool_decide_eq_false_2.
Qed.

(** C7. When the collection holds a notice with the same title, message
    and sender, [add_notice] is refused and returns the collection it was
    given, whatever the other arguments are. So after a call that added a
    notice, a second call with the same three values adds nothing: of
    the two calls exactly one notice is added. *)
Theorem add_notice_same_triple now now' notices title' message' sender'
    send_at1 show_type1 open_url1 valid_duration1 version1
    send_at2 show_type2 open_url2 valid_duration2 version2 :
  ((∃ old_notice, old_notice ∈ notices
                  ∧ same_triple title' message' sender' old_notice) →
   ∃ log, add_notice now title' message' sender' send_at1 show_type1
                     open_url1 valid_duration1 version1 notices
          = (Ok log, notices)
          ∧ is_refusal log)
  ∧ (∀ notice notices1,
       add_notice now title' message' sender' send_at1 show_type1
                  open_url1 valid_duration1 version1 notices
       = (Ok (LogAdded notice), notices1) →
       notices1 = notices ++ [notice]
       ∧ same_triple title' message' sender' notice
       ∧ ∃ log, add_notice now' title' message' sender' send_at2 show_type2
                           open_url2 valid_duration2 version2 notices1
                = (Ok log, notices1)
                ∧ is_refusal log).
Proof.
  assert (Hrefuse : ∀ now notices send_at' show_type' open_url' vd version',
    (∃ old_notice, old_notice ∈ notices
                   ∧ same_triple title' message' sender' old_notice) →
    ∃ log, add_notice now title' message' sender' send_at' show_type'
                      open_url' vd version' notices = (Ok log, notices)
           ∧ is_refusal log).
  { intros now0 ns sa st url vd v (old & Hin & Htriple). unfold add_notice.
    case_bool_decide; cbn [negb]; [|by eexists].
    destruct (find_duplicate_Some _ _ _ _ _ Hin Htriple) as [first ->].
    by eexists. }
  split; [apply Hrefuse|].
  intros notice notices1. unfold add_notice at 1.
  case_bool_decide; cbn [negb]; [|done].
  destruct (find_duplicate notices title' message' sender'); [done|].
  destruct (datetime_in_range _); [|done].
  intros [= <- <-]. split; [done|]. split; [by repeat split|].
  apply Hrefuse. eexists.
  split; [apply elem_of_app; right; by apply list_elem_of_singleton|].
  by repeat split.
Qed.
End AddNoticeFacts.

(** ** Sorting by [send_at] *)

Section SortedFacts.
Context `{Util}.
Implicit Types (x y : Notice) (l r : list Notice).

Lemma Notice_lt_Ok x y kx ky :
  sent_at kx x → sent_at ky y → Notice_lt x y = Ok (kx <? ky).
Proof.
  unfold sent_at, Notice_lt. by intros -> ->.
Qed.

Lemma send_at_le_trans x y z : send_at_le x y → send_at_le y z → send_at_le x z.
Proof.
  intros (a & b & Ha & Hb & Hab) (b' & c & Hb' & Hc & Hbc).
  unfold sent_at in *. exists a, c. split_and!; [done..|].
  assert (b = b') by congruence. lia.
Qed.

(** Whenever it returns, [insert_sorted] has added its element. *)
Lemma insert_sorted_perm x l r : insert_sorted x l = Ok r → r ≡ₚ x :: l.
Proof.
  revert r. induction l as [|y l IH]; intros r.
  - by intros [= <-].
  - cbn [insert_sorted]. destruct (Notice_lt y x) as [[|]|]; cbn [outcome_bind];
      [|by intros [= <-]|done].
    destruct (insert_sorted x l) as [r'|]; [|done]. cbn [outcome_bind].
    intros [= <-]. rewrite (IH r' eq_refl). apply perm_swap.
Qed.

(** Inserting keeps the elements, the order among equal timestamps and
    sortedness. *)
Lemma insert_sorted_spec x l :
  has_timestamp x →
  Forall has_timestamp l →
  ∃ r, insert_sorted x l = Ok r
       ∧ r ≡ₚ x :: l
       ∧ (∀ t, filter (sent_at t) r = filter (sent_at t) (x :: l))
       ∧ (StronglySorted send_at_le l → StronglySorted send_at_le r).
Proof.
  intros [kx Hx]. induction l as [|y l IH]; intros Hl.
  - exists [x]. split_and!; [done..|]. intros _. repeat constructor.
  - apply Forall_cons in Hl as [[ky Hy] Hl].
    cbn [insert_sorted]. rewrite (Notice_lt_Ok y x ky kx) by done.
    cbn [outcome_bind].
    destruct (Z.ltb_spec ky kx) as [Hlt | Hge].
    + destruct (IH Hl) as (r & -> & Hperm & Hfilter & Hsorted).
      exists (y :: r). cbn [outcome_bind]. split_and!; [done| | |].
      * rewrite Hperm. apply perm_swap.
      * intros t. rewrite !filter_cons, Hfilter, !filter_cons.
        destruct (decide (sent_at t y)) as [Hty|], (decide (sent_at t x)) as [Htx|];
          try done.
        unfold sent_at in *. exfalso. assert (kx = ky) by congruence. lia.
      * intros Hs. apply StronglySorted_inv in Hs as [Hs Hall].
        constructor; [by apply Hsorted|].
        rewrite Hperm. constructor; [|done].
        exists ky, kx. split_and!; [done..|lia].
    + exists (x :: y :: l). split_and!; [done..|].
      intros Hs. constructor; [done|].
      assert (Hxy : send_at_le x y) by (exists kx, ky; done).
      constructor; [done|].
      apply StronglySorted_inv in Hs as [_ Hall].
      eapply Forall_impl; [exact Hall|].
      intros z Hyz. by eapply send_at_le_trans.
Qed.

(** [sorted] on notices with timestamps does not raise; it returns the
    stable sort of the list by [send_at]. *)
Lemma sorted_spec l :
  Forall has_timestamp l →
  ∃ r, sorted l = Ok r
       ∧ r ≡ₚ l
       ∧ (∀ t, filter (sent_at t) r = filter (sent_at t) l)
       ∧ StronglySorted send_at_le r.
Proof.
  induction l as [|x l IH]; intros Hl.
  - exists []. split_and!; [done..|]. constructor.
  - apply Forall_cons in Hl as [Hx Hl].
    destruct (IH Hl) as (r' & Hr' & Hperm' & Hfilter' & Hsorted').
    assert (Hr'ts : Forall has_timestamp r') by by rewrite Hperm'.
    destruct (insert_sorted_spec x r' Hx Hr'ts) as (r & Hr & Hperm & Hfilter & Hsorted).
    exists r. cbn [sorted]. rewrite Hr'. cbn [outcome_bind].
    split_and!; [done| | |by apply Hsorted].
    + by rewrite Hperm, Hperm'.
    + intros t. by rewrite Hfilter, !filter_cons, Hfilter'.
Qed.

(** A list of fewer than two notices is returned without a comparison. *)
Lemma sorted_short l : (length l < 2)%nat → sorted l = Ok l.
Proof.
  destruct l as [|x [|y l]]; cbn; [done..|lia].
Qed.
End SortedFacts.

(** ** Loading, showing and saving *)

Section ManagerFacts.
Context `{Util, Version, Download} {Store : Type} `{FirstRun Store}.
Implicit Types (notices valid : list Notice) (fs : Files) (st : Store).

(** What [load] leaves in the collection. *)
Lemma load_collection from_remote notices fs :
  (load from_remote notices fs).1 =
    match read_notices from_remote fs with
    | None => notices
    | Some _ =>
        match sorted (appended_notices from_remote notices fs) with
        | Ok s => s
        | Raise _ => appended_notices from_remote notices fs
        end
    end.
Proof.
  unfold load, try_except, load_body, appended_notices, read_notices.
  destruct (if from_remote then download_latest_notices fs else Ok fs)
    as [fs'|e]; [|done].
  destruct (if from_remote then cache_file fs' else save_file fs')
    as [[|records]|]; [done| |done].
  by destruct (sorted _).
Qed.

(** The filter keeps the order of the collection. *)
Lemma filter_need_show_sublist now notices st valid st' :
  filter_need_show now notices st = (Ok valid, st') → valid `sublist_of` notices.
Proof.
  revert st valid st'. induction notices as [|notice rest IH]; intros st valid st'.
  - cbn. unfold ret. intros [= <- _]. constructor.
  - cbn [filter_need_show]. unfold bind at 1.
    destruct (need_show now notice st) as [[b|e] st1]; [|done].
    unfold bind. destruct (filter_need_show now rest st1) as [[v|e] st2] eqn:Hrest;
      [|done].
    unfold ret. intros [= <- _]. apply IH in Hrest.
    destruct b; by constructor.
Qed.

(** Every notice the filter keeps answered true to [need_show]. *)
Lemma filter_need_show_true now notices st valid st' notice :
  filter_need_show now notices st = (Ok valid, st') →
  notice ∈ valid →
  ∃ st1 st2, need_show now notice st1 = (Ok true, st2).
Proof.
  revert st valid st'. induction notices as [|first rest IH]; intros st valid st'.
  - cbn. unfold ret. intros [= <- _] Hin. by apply elem_of_nil in Hin.
  - cbn [filter_need_show]. unfold bind at 1.
    destruct (need_show now first st) as [[b|e] st1] eqn:Hfirst; [|done].
    unfold bind. destruct (filter_need_show now rest st1) as [[v|e] st2] eqn:Hrest;
      [|done].
    unfold ret. intros [= <- _] Hin. destruct b.
    + apply elem_of_cons in Hin as [-> | Hin]; [by eauto|by eapply IH].
    + by eapply IH.
Qed.

(** On Windows the boxes are those of the valid notices, one by one. *)
Lemma show_boxes_windows valid :
  is_windows = true →
  ∃ shown, show_boxes valid = Ok shown
           ∧ length shown = length valid
           ∧ ∀ (k : nat) notice, valid !! k = Some notice →
               shown !! k = Some (mkMessageBox (message notice)
                                    (box_title k (length valid) notice)
                                    (open_url notice)).
Proof.
  intros Hwin. unfold show_boxes. rewrite Hwin.
  destruct valid as [|first rest] eqn:Hvalid.
  - exists []. split_and!; [done..|]. intros k notice Hk. by rewrite lookup_nil in Hk.
  - rewrite <- Hvalid. eexists. split_and!; [done| |].
    + by rewrite length_imap.
    + intros k notice Hk. by rewrite list_lookup_imap, Hk.
Qed.

(** The filter of [show_notices] keeps exactly the notices that answer
    true to [need_show], asked in the order of the collection. *)
Lemma filter_need_show_eligible now notices st valid st' :
  eligible_in_order now notices st valid st'
  ↔ filter_need_show now notices st = (Ok valid, st').
Proof.
  split.
  - induction 1 as [st|notice rest st st1 valid st' Hshow _ IH
                      |notice rest st st1 valid st' Hshow _ IH]; [done|..];
      cbn [filter_need_show]; unfold bind at 1; rewrite Hshow;
      unfold bind; by rewrite IH.
  - revert st valid st'. induction notices as [|notice rest IH];
      intros st valid st'.
    + cbn. unfold ret. intros [= <- <-]. constructor.
    + cbn [filter_need_show]. unfold bind at 1.
      destruct (need_show now notice st) as [[b|e] st1] eqn:Hshow; [|done].
      unfold bind.
      destruct (filter_need_show now rest st1) as [[v|e] st2] eqn:Hrest; [|done].
      unfold ret. intros [= <- <-]. apply IH in Hrest.
      destruct b; [by eapply eligible_shown | by eapply eligible_hidden].
Qed.

(** C8. When [load] has read its file (or started from the empty
    collection) and every [send_at] is a timestamp, the collection it
    leaves is sorted ascending by the parsed [send_at]; it holds the old
    notices and the notices of the file, and the notices sent at one
    instant keep the order they had before the sort. [show_notices]
    presents the eligible notices in the order of this collection: when
    [need_show], asked of each notice in that order, keeps the notices
    [valid], these are a subsequence of the collection, and on Windows
    [show_notices] shows one box for each of them and ends in the store
    the run ended in; the k-th box (k from 0) carries the message and the
    url of the k-th eligible notice under the title
    公告(k+1/N) - title, with N the number of eligible notices. *)
Theorem load_sorted_show_in_order from_remote notices fs :
  let appended := appended_notices from_remote notices fs in
  let result := (load from_remote notices fs).1 in
  is_Some (read_notices from_remote fs) ∨ notices = [] →
  Forall has_timestamp appended →
  StronglySorted send_at_le result
  ∧ result ≡ₚ appended
  ∧ (∀ t, filter (sent_at t) result = filter (sent_at t) appended)
  ∧ (∀ now st valid st',
       eligible_in_order now result st valid st' →
       valid `sublist_of` result
       ∧ (is_windows = true →
          ∃ shown, show_notices now result st = (shown, st')
                   ∧ length shown = length valid
                   ∧ ∀ (k : nat) notice, valid !! k = Some notice →
                       shown !! k
                       = Some (mkMessageBox
                                 (message notice)
                                 ("公告(" +:+ pretty (k + 1)%nat +:+ "/"
                                    +:+ pretty (length valid) +:+ ") - "
                                    +:+ title notice)
                                 (open_url notice)))).
Proof.
  intros appended result Hread Hts.
  destruct (sorted_spec appended Hts) as (s & Hs & Hperm & Hstable & Hsorted).
  assert (Hresult : result = s).
  { unfold result. rewrite load_collection. fold appended. rewrite Hs.
    destruct (read_notices from_remote fs) eqn:Hr; [done|].
    destruct Hread as [[? [=]] | ->].
    unfold appended, appended_notices in Hs. rewrite Hr in Hs.
    cbn in Hs. by injection Hs. }
  rewrite Hresult. split_and!; [done..|].
  intros now st valid st' Hvalid.
  apply filter_need_show_eligible in Hvalid. split.
  - by eapply filter_need_show_sublist.
  - intros Hwin.
    destruct (show_boxes_windows valid Hwin) as (shown & Hshown & Hlen & Hk).
    exists shown. split_and!; [|done|].
    + unfold show_notices, show_notices_body, bind. by rewrite Hvalid, Hshown.
    + intros k notice Hlookup. by rewrite (Hk k notice Hlookup).
Qed.

(** Serializing a notice and deserializing it on a new notice gives the
    notice back. *)
Lemma auto_update_config_to_raw_type notice :
  auto_update_config Notice_init (to_raw_type notice) = notice.
Proof. by destruct notice. Qed.

(** C9. After a [save] that could write its file, [load] from the local
    file on a new manager gives back the saved notices with the same
    fields; with every [send_at] a timestamp they come in the order of the
    sort at load, which is the stable sort of the saved collection by
    [send_at]. *)
Theorem save_load_roundtrip notices fs :
  save_writable fs = true →
  let loaded := (NoticeManager_init false (save notices fs)).1 in
  loaded ≡ₚ notices
  ∧ (Forall has_timestamp notices →
     sorted notices = Ok loaded
     ∧ (∀ t, filter (sent_at t) loaded = filter (sent_at t) notices)
     ∧ StronglySorted send_at_le loaded).
Proof.
  intros Hw loaded.
  assert (Hloaded : loaded = match sorted notices with
                             | Ok s => s
                             | Raise _ => notices
                             end).
  { unfold loaded, NoticeManager_init. rewrite load_collection.
    unfold appended_notices, read_notices, save, try_except, save_body.
    rewrite Hw. cbn.
    rewrite map_map.
    rewrite (map_ext _ id) by apply auto_update_config_to_raw_type.
    by rewrite map_id. }
  split.
  - rewrite Hloaded. destruct (sorted notices) as [s|e] eqn:Hs; [|done].
    clear Hloaded loaded. revert s Hs.
    induction notices as [|x l IH]; intros s Hs.
    + by injection Hs as <-.
    + cbn [sorted] in Hs. destruct (sorted l) as [r|] eqn:Hr; [|done].
      cbn [outcome_bind] in Hs. rewrite <- (IH r eq_refl).
      by apply insert_sorted_perm.
  - intros Hts.
    destruct (sorted_spec notices Hts) as (s & Hs & Hperm & Hstable & Hsorted).
    rewrite Hs in Hloaded. by rewrite Hloaded.
Qed.
End ManagerFacts.

(** * The properties on the sample data *)

Section OnSample.
Import Sample.
Local Existing Instances windows_util release first_run_db offline.

Lemma need_show_expired_witness :
  need_show now notice_old (∅ : gmap string Z) = (Ok false, ∅).
Proof.
  eapply need_show_expired; [reflexivity | reflexivity].
Defined.

Lemma need_show_once_twice_witness :
  need_show now notice_A (∅ : gmap string Z)
  = (Ok true, {[get_first_run_key notice_A := now]})
  ∧ need_show now notice_A ({[get_first_run_key notice_A := now]} : gmap string Z)
    = (Ok false, {[get_first_run_key notice_A := now]}).
Proof.
  eapply (need_show_once_twice now now _ notice_A ∅);
    [reflexivity | reflexivity | intros [=] | left; reflexivity | apply lookup_empty].
Defined.

Lemma need_show_always_witness :
  need_show now notice_B (∅ : gmap string Z) = (Ok true, ∅)
  ∧ need_show now notice_B ({[get_first_run_key notice_B := now]} : gmap string Z)
    = (Ok true, {[get_first_run_key notice_B := now]}).
Proof.
  split; eapply (need_show_always now notice_B);
    [reflexivity | reflexivity | intros [=] | left; reflexivity
    |reflexivity | reflexivity | intros [=] | left; reflexivity].
Defined.

Lemma need_show_deprecated_witness :
  need_show now notice_deprecated (∅ : gmap string Z) = (Ok false, ∅)
  ∧ need_show now notice_deprecated (Notice_reset_first_run notice_deprecated ∅)
    = (Ok false, Notice_reset_first_run notice_deprecated (∅ : gmap string Z)).
Proof.
  split; eapply (need_show_deprecated now notice_deprecated);
    [left; reflexivity | reflexivity | left; reflexivity | reflexivity].
Defined.

Lemma get_first_run_key_injective_witness :
  get_first_run_key notice_A = get_first_run_key notice_B
  ↔ title notice_A = title notice_B ∧ send_at notice_A = send_at notice_B.
Proof.
  apply get_first_run_key_injective; reflexivity.
Defined.

Lemma add_notice_invalid_show_type_witness :
  add_notice now "C" "third" "风之凌殇" "" "bogus" "" None "" [notice_A]
  = (Ok (LogInvalidShowType "bogus"), [notice_A]).
Proof.
  apply add_notice_invalid_show_type.
  unfold valid_notice_show_type.
  rewrite !elem_of_union, !elem_of_singleton. intuition discriminate.
Defined.

Lemma add_notice_same_triple_witness :
  (∃ log, add_notice now "A" "first" "风之凌殇" "2021-07-01 00:00:00"
                     DAILY "" None "" [notice_A] = (Ok log, [notice_A])
          ∧ is_refusal log)
  ∧ (∃ notice log,
       add_notice now "A" "first" "风之凌殇" "2021-01-01 00:00:00" ONCE ""
                  None "" [] = (Ok (LogAdded notice), [notice])
       ∧ add_notice (now + 60) "A" "first" "风之凌殇" "2021-07-01 00:00:00"
                    DAILY "" (Some (days 30)) "" [notice]
         = (Ok log, [notice])
       ∧ is_refusal log).
Proof.
  split.
  - apply (add_notice_same_triple now now [notice_A] "A" "first" "风之凌殇"
             "2021-07-01 00:00:00" DAILY "" None ""
             "2021-07-01 00:00:00" DAILY "" None "").
    exists notice_A. split; [apply list_elem_of_singleton; reflexivity|].
    repeat split.
  - destruct (add_notice_same_triple now (now + 60) [] "A" "first" "风之凌殇"
                "2021-01-01 00:00:00" ONCE "" None ""
                "2021-07-01 00:00:00" DAILY "" (Some (days 30)) "")
      as [_ Htwice].
    edestruct Htwice as (_ & _ & log & Hsecond & Hlog);
      [vm_compute; reflexivity|].
    eexists _, log. split; [vm_compute; reflexivity|].
    split; [exact Hsecond | exact Hlog].
Defined.

Lemma load_sorted_show_in_order_witness :
  StronglySorted send_at_le (load false [] files).1
  ∧ (load false [] files).1 ≡ₚ [notice_B; notice_A]
  ∧ ∃ shown,
      show_notices now (load false [] files).1 (∅ : gmap string Z)
      = (shown, {[get_first_run_key notice_A := now]})
      ∧ length shown = 2%nat
      ∧ shown !! 0%nat = Some (mkMessageBox "first" "公告(1/2) - A" "")
      ∧ shown !! 1%nat
        = Some (mkMessageBox "second" "公告(2/2) - B" "https://example.org").
Proof.
  destruct (load_sorted_show_in_order (Store := gmap string Z) false [] files)
    as (Hsorted & Hperm & _ & Hshow).
  - left. eexists. reflexivity.
  - repeat constructor; eexists; reflexivity.
  - split; [exact Hsorted|]. split; [exact Hperm|].
    destruct (Hshow now ∅ [notice_A; notice_B]
                {[get_first_run_key notice_A := now]})
      as (_ & Hboxes).
    + assert (Hloaded : (load false [] files).1 = [notice_A; notice_B])
        by (vm_compute; reflexivity).
      rewrite Hloaded.
      eapply eligible_shown; [reflexivity|].
      eapply eligible_shown; [reflexivity|].
      apply eligible_nil.
    + destruct (Hboxes eq_refl) as (shown & Hshown & Hlen & Hk).
      exists shown. split; [exact Hshown|]. split; [exact Hlen|].
      split; [exact (Hk 0%nat notice_A eq_refl) | exact (Hk 1%nat notice_B eq_refl)].
Defined.

Lemma save_load_roundtrip_witness :
  (NoticeManager_init false (save [notice_B; notice_A] files)).1
    ≡ₚ [notice_B; notice_A]
  ∧ sorted [notice_B; notice_A]
    = Ok (NoticeManager_init false (save [notice_B; notice_A] files)).1.
Proof.
  destruct (save_load_roundtrip [notice_B; notice_A] files) as [Hperm Hsorted].
  - reflexivity.
  - split; [exact Hperm|]. apply Hsorted.
    repeat constructor; eexists; reflexivity.
Defined.

Lemma default_notice_never_shown_witness :
  show_only_before_version (auto_update_config Notice_init raw_short) = "20.1.2"
  ∧ need_show now (auto_update_config Notice_init raw_short) (∅ : gmap string Z)
    = (Ok false, ∅).
Proof.
  destruct (default_notice_never_shown (Store := gmap string Z))
    as (_ & Hraw & Hnever).
  assert (Hversion : show_only_before_version
                       (auto_update_config Notice_init raw_short) = "20.1.2").
  { apply Hraw. unfold raw_short. cbn.
    rewrite !elem_of_cons, elem_of_nil. intuition discriminate. }
  split; [exact Hversion|].
  eapply Hnever; [intros [=] | reflexivity | exact Hversion | reflexivity].
Defined.
End OnSample.

(** * The scenario of the two notices *)

Section Scenario.
Import Sample.
Local Existing Instances release first_run_db offline.

Example parse_time_epoch : Calendar.parse_time "1970-01-01 00:00:00" = Some 0.
Proof. reflexivity. Qed.

Example parse_time_malformed :
  Calendar.parse_time "2021-02-30 00:00:00" = None
  ∧ Calendar.parse_time "soon" = None.
Proof. split; reflexivity. Qed.

Example format_time_leap_day :
  Calendar.format_time (1582934400 + 86399) = "2020-02-29 23:59:59".
Proof. vm_compute. reflexivity. Qed.

Example format_time_parse_time :
  Calendar.parse_time (Calendar.format_time (now + days 7)) = Some (now + days 7).
Proof. vm_compute. reflexivity. Qed.

Example version_less_numeric :
  DottedVersion.version_less "20.1.2" "20.1.10" = true
  ∧ DottedVersion.version_less "20.1.2" "20.1.2" = false.
Proof. split; reflexivity. Qed.

(** Loading puts A, sent in January, before B, sent in June. *)
Example load_orders_by_send_at :
  (load (H := windows_util) false [] files).1 = [notice_A; notice_B].
Proof. vm_compute. reflexivity. Qed.

(** The first call shows A then B, the second call only B. *)
Example show_notices_twice :
  let notices := [notice_A; notice_B] in
  let '(first, db) := show_notices (H := windows_util) now notices ∅ in
  let '(second, _) := show_notices (H := windows_util) now notices db in
  first = [ mkMessageBox "first" "公告(1/2) - A" "";
            mkMessageBox "second" "公告(2/2) - B" "https://example.org" ]
  ∧ second = [ mkMessageBox "second" "公告(1/1) - B" "https://example.org" ].
Proof. vm_compute. split; reflexivity. Qed.

(** Without [win32con] the loop raises at its first box: nothing is shown,
    and the window of A is spent all the same. *)
Example show_notices_without_win32con :
  show_notices (H := posix_util) now [notice_A; notice_B] ∅
  = ([], {[get_first_run_key notice_A := now]}).
Proof. vm_compute. reflexivity. Qed.

(** A [send_at] that is no timestamp makes the sort raise; [load] swallows
    the exception and the collection stays as appended. *)
Example load_keeps_unsorted :
  let bad := mkNotice "s" "t" "m" "soon" ONCE "" "2121-05-11 00:00:00" "" in
  let fs := mkFiles None (Some (Json [to_raw_type notice_B; to_raw_type bad])) true in
  (load (H := windows_util) false [] fs).1 = [notice_B; bad].
Proof. vm_compute. reflexivity. Qed.

(** [add_notice] stamps the expiry seven days after now. *)
Example add_notice_default_expiry :
  (add_notice (H := windows_util) now "C" "third" "风之凌殇" "" ONCE "" None "" []).2
  = [ mkNotice "风之凌殇" "C" "third" "2021-06-01 00:00:00" ONCE ""
               "2021-06-08 00:00:00" "" ].
Proof. vm_compute. reflexivity. Qed.

(** An expiry beyond the year 9999 is no [datetime]: the call raises and
    adds nothing. *)
Example add_notice_overflow :
  add_notice (H := windows_util) now "C" "third" "风之凌殇" "" ONCE ""
             (Some (days 3000000)) "" []
  = (Raise OverflowError, []).
Proof. vm_compute. reflexivity. Qed.
End Scenario.

(** * Further properties *)

(** ** When [need_show] raises, answers true, changes the store *)

Section NeedShowOutcomes.
Context `{Util, Version} {Store : Type} `{FirstRun Store}.
Implicit Types (self : Notice) (st : Store) (now expire : Z).

Lemma version_gate_closed self :
  negb (bool_decide (show_only_before_version self = ""))
    && negb (version_less now_version (show_only_before_version self)) = false →
  version_eligible self.
Proof.
  unfold version_eligible. case_bool_decide; [by left|].
  destruct (version_less _ _); [by right | done].
Qed.

Lemma tracker_never_raises (q : Store → bool * Store) st :
  ∃ b st', tracker q st = (Ok b, st').
Proof. unfold tracker. destruct (q st). by eauto. Qed.

(** X1. A notice whose [expire_at] is no timestamp makes [need_show]
    raise [ValueError] at the expiry check, before the version check and
    before any query of the tracker: the store is left as it was, whatever
    the show type and the version ceiling are. *)
Theorem need_show_malformed_expiry now self st :
  parse_time (expire_at self) = None →
  need_show now self st = (Raise ValueError, st).
Proof.
  intros Hparse. unfold need_show. by rewrite Hparse.
Qed.

(** X2. [need_show] answers true only for a notice that is not past its
    expiry, is version-eligible and has a valid show type other than
    DEPRECATED. *)
Theorem need_show_true_only_if now self st st' :
  need_show now self st = (Ok true, st') →
  ∃ expire, parse_time (expire_at self) = Some expire
            ∧ now ≤ expire
            ∧ version_eligible self
            ∧ show_type self ∈ valid_notice_show_type
            ∧ show_type self ≠ DEPRECATED.
Proof.
  unfold need_show.
  destruct (parse_time (expire_at self)) as [expire|]; [|done].
  destruct (Z.gtb_spec now expire) as [|Hle]; [done|].
  destruct (_ && _) eqn:Hgate; [done|].
  apply version_gate_closed in Hgate.
  unfold valid_notice_show_type.
  repeat case_bool_decide; try done; intros _;
    exists expire;
    match goal with Hty : show_type self = _ |- _ => rewrite Hty end;
    (split_and!; [done..|set_solver|done]).
Qed.

(** X3. [need_show] changes the store only for a notice that is not past
    its expiry, is version-eligible and has one of the four show types
    with a window: for every other notice the tracker is left alone. *)
Theorem need_show_store_changed_only_if now self st r st' :
  need_show now self st = (r, st') →
  st' ≠ st →
  ∃ expire, parse_time (expire_at self) = Some expire
            ∧ now ≤ expire
            ∧ version_eligible self
            ∧ show_type self ∈ tracked_show_type.
Proof.
  unfold need_show.
  destruct (parse_time (expire_at self)) as [expire|];
    [|by intros [= _ <-]].
  destruct (Z.gtb_spec now expire) as [|Hle]; [by intros [= _ <-]|].
  destruct (_ && _) eqn:Hgate; [by intros [= _ <-]|].
  apply version_gate_closed in Hgate.
  unfold tracked_show_type.
  repeat case_bool_decide; try (by intros [= _ <-]); intros _ _;
    (exists expire; split_and!; [done..|]);
    match goal with Hty : show_type self = _ |- _ => rewrite Hty end;
    set_solver.
Qed.
End NeedShowOutcomes.

(** ** What [show_notices] shows *)

Section ShowNoticesOutcomes.
Context `{Util, Version} {Store : Type} `{FirstRun Store}.
Implicit Types (notices valid : list Notice) (st : Store) (now : Z).

(** With every [expire_at] a timestamp the filter does not raise. *)
Lemma filter_need_show_returns now notices st :
  Forall has_expiry notices →
  ∃ valid st', filter_need_show now notices st = (Ok valid, st').
Proof.
  intros Hall. revert st. induction Hall as [|notice rest [expire Hparse] _ IH];
    intros st.
  - by eexists _, _.
  - cbn [filter_need_show]. unfold bind at 1.
    assert (∃ b st1, need_show now notice st = (Ok b, st1)) as (b & st1 & ->).
    { unfold need_show. rewrite Hparse.
      destruct (now >? expire); [by eexists _, _|].
      destruct (_ && _); [by eexists _, _|].
      repeat case_bool_decide;
        first [apply tracker_never_raises | by eexists _, _]. }
    unfold bind. destruct (IH st1) as (valid & st' & ->). by eexists _, _.
Qed.

(** One [expire_at] that is no timestamp makes the filter raise. *)
Lemma filter_need_show_raises now notices st :
  ¬ Forall has_expiry notices →
  ∃ st', filter_need_show now notices st = (Raise ValueError, st').
Proof.
  revert st. induction notices as [|notice rest IH]; intros st Hbad.
  - destruct Hbad. constructor.
  - cbn [filter_need_show]. unfold bind at 1.
    destruct (parse_time (expire_at notice)) as [expire|] eqn:Hparse.
    + assert (∃ b st1, need_show now notice st = (Ok b, st1)) as (b & st1 & ->).
      { unfold need_show. rewrite Hparse.
        destruct (now >? expire); [by eexists _, _|].
        destruct (_ && _); [by eexists _, _|].
        repeat case_bool_decide;
          first [apply tracker_never_raises | by eexists _, _]. }
      unfold bind. destruct (IH st1) as (st' & ->); [|by eexists].
      intros Hrest. apply Hbad. constructor; [by eexists | done].
    + unfold need_show. rewrite Hparse. by eexists.
Qed.

(** X4. One notice whose [expire_at] is no timestamp silences the whole
    call: [show_notices] then shows no box at all, wherever the notice
    stands in the collection. *)
Theorem show_notices_malformed_expiry now notices st :
  ¬ Forall has_expiry notices →
  (show_notices now notices st).1 = [].
Proof.
  intros Hbad. unfold show_notices, show_notices_body, bind.
  by destruct (filter_need_show_raises now notices st Hbad) as (st' & ->).
Qed.



End ShowNoticesOutcomes.

(** ** When the sort of [load] raises, and what [load] keeps *)

Section LoadOutcomes.
Context `{Util, Version, Download}.
Implicit Types (x y : Notice) (l r notices : list Notice) (fs : Files).

Lemma Notice_lt_inv x y b :
  Notice_lt x y = Ok b → has_timestamp x ∧ has_timestamp y.
Proof.
  unfold Notice_lt, has_timestamp.
  destruct (parse_time (send_at x)); [|done].
  destruct (parse_time (send_at y)); [|done]. by eauto.
Qed.

Lemma Notice_lt_raises x y e : Notice_lt x y = Raise e → e = ValueError.
Proof.
  unfold Notice_lt.
  destruct (parse_time (send_at x)); [|by intros [= <-]].
  destruct (parse_time (send_at y)); [done|by intros [= <-]].
Qed.

Lemma insert_sorted_raises x l e : insert_sorted x l = Raise e → e = ValueError.
Proof.
  induction l as [|y l IH]; [done|]. cbn [insert_sorted].
  destruct (Notice_lt y x) as [[|]|e'] eqn:Hlt; cbn [outcome_bind]; [|done|].
  - destruct (insert_sorted x l); [done|]. cbn [outcome_bind].
    intros [= <-]. by apply IH.
  - intros [= <-]. by eapply Notice_lt_raises.
Qed.

Lemma sorted_raises l e : sorted l = Raise e → e = ValueError.
Proof.
  induction l as [|x l IH]; [done|]. cbn [sorted].
  destruct (sorted l) as [r|e']; cbn [outcome_bind].
  - apply insert_sorted_raises.
  - intros [= <-]. by apply IH.
Qed.

Lemma sorted_perm l r : sorted l = Ok r → r ≡ₚ l.
Proof.
  revert r. induction l as [|x l IH]; intros r.
  - by intros [= <-].
  - cbn [sorted]. destruct (sorted l) as [r'|]; [|done]. cbn [outcome_bind].
    intros Hins. rewrite (insert_sorted_perm _ _ _ Hins). by rewrite (IH r').
Qed.

(** A sort that returns has compared every notice of a list of two or
    more, so every [send_at] was a timestamp. *)
Lemma sorted_returns l r :
  sorted l = Ok r → (length l < 2)%nat ∨ Forall has_timestamp l.
Proof.
  revert r. induction l as [|x l IH]; intros r; [left; cbn; lia|].
  cbn [sorted]. destruct (sorted l) as [r'|] eqn:Hr'; [|done].
  cbn [outcome_bind]. intros Hins.
  pose proof (sorted_perm _ _ Hr') as Hperm.
  destruct r' as [|y r'].
  - apply Permutation_nil_l in Hperm as <-. left. cbn. lia.
  - right. cbn [insert_sorted] in Hins.
    destruct (Notice_lt y x) as [b|] eqn:Hlt; [|done].
    apply Notice_lt_inv in Hlt as [Hy Hx].
    constructor; [done|].
    destruct (IH _ eq_refl) as [Hshort | Hall]; [|done].
    destruct l as [|z [|z' l]]; [done| |cbn in Hshort; lia].
    apply Permutation_length in Hperm as Hlen.
    destruct r'; [|done]. apply Permutation_singleton_l in Hperm as [= <-].
    by constructor.
Qed.

(** [sorted] raises exactly on a list of two or more notices one of which
    has a [send_at] that is no timestamp, and then with [ValueError]. *)
Lemma sorted_raises_iff l :
  sorted l = Raise ValueError
  ↔ (2 ≤ length l)%nat ∧ ¬ Forall has_timestamp l.
Proof.
  split.
  - intros Hraise. split.
    + destruct (decide (length l < 2)%nat) as [Hshort|]; [|lia].
      by rewrite (sorted_short _ Hshort) in Hraise.
    + intros Hall. destruct (sorted_spec l Hall) as (r & Hr & _). congruence.
  - intros [Hlen Hbad]. destruct (sorted l) as [r|e] eqn:Hs.
    + destruct (sorted_returns _ _ Hs); [lia | done].
    + by rewrite (sorted_raises _ _ Hs).
Qed.

(** X7. [load] never loses and never invents a notice: whatever happens,
    the collection it leaves holds the old notices and the notices of the
    file, each as often as before; when nothing could be read (the
    download raised, the file is missing or is not JSON) the collection
    is the one it was given, and a local [load] leaves the files alone. *)
Theorem load_keeps_notices from_remote notices fs :
  (load from_remote notices fs).1 ≡ₚ appended_notices from_remote notices fs
  ∧ (read_notices from_remote fs = None →
     (load from_remote notices fs).1 = notices)
  ∧ (load false notices fs).2 = fs.
Proof.
  split_and!.
  - rewrite load_collection. unfold appended_notices.
    destruct (read_notices from_remote fs) as [records|] eqn:Hread.
    + destruct (sorted _) as [s|] eqn:Hs; [|done]. by apply sorted_perm.
    + by rewrite app_nil_r.
  - intros Hread. by rewrite load_collection, Hread.
  - unfold load, try_except, load_body.
    destruct (save_file fs) as [[|records]|]; [done| |done].
    by destruct (sorted _).
Qed.


(** X9. When the file was read and the collection then holds two or more
    notices, one with a [send_at] that is no timestamp, the sort raises
    and [load] swallows it: the collection stays as appended, the old
    notices and then the notices of the file in the order of the file. *)
Theorem load_unsorted_on_malformed from_remote notices fs :
  is_Some (read_notices from_remote fs) →
  (2 ≤ length (appended_notices from_remote notices fs))%nat →
  ¬ Forall has_timestamp (appended_notices from_remote notices fs) →
  (load from_remote notices fs).1 = appended_notices from_remote notices fs.
Proof.
  intros [records Hread] Hlen Hbad. rewrite load_collection, Hread.
  assert (sorted (appended_notices from_remote notices fs) = Raise ValueError) as ->;
    [|done].
  by apply sorted_raises_iff.
Qed.
End LoadOutcomes.

(** ** The sort of [load] is the stable sort *)

Section StableSort.
Context `{Util}.
Implicit Types (x y : Notice) (l r : list Notice).

Lemma sent_at_head_le x l t y :
  sent_at t x →
  Forall (send_at_le x) l →
  y ∈ x :: l →
  ∃ t', sent_at t' y ∧ t ≤ t'.
Proof.
  intros Hx Hall [-> | Hin]%elem_of_cons.
  - exists t. split; [done | lia].
  - rewrite Forall_forall in Hall.
    destruct (Hall _ Hin) as (a & b & Ha & Hb & Hab).
    unfold sent_at in *. exists b. split; [done|].
    assert (a = t) by congruence. lia.
Qed.

(** Two sorted lists of notices with timestamps that hold, for every
    instant, the same notices sent then in the same order, are equal. *)
Lemma stable_sorted_unique l1 l2 :
  Forall has_timestamp l1 →
  Forall has_timestamp l2 →
  StronglySorted send_at_le l1 →
  StronglySorted send_at_le l2 →
  (∀ t, filter (sent_at t) l1 = filter (sent_at t) l2) →
  l1 = l2.
Proof.
  revert l2. induction l1 as [|x l1 IH]; intros l2 Hts1 Hts2 Hs1 Hs2 Hf.
  - destruct l2 as [|y l2]; [done|].
    apply Forall_cons in Hts2 as [[ky Hy] _]. specialize (Hf ky).
    rewrite filter_nil, filter_cons in Hf. by destruct (decide _).
  - apply Forall_cons in Hts1 as [[kx Hx] Hts1].
    destruct l2 as [|y l2].
    { specialize (Hf kx). rewrite filter_nil, filter_cons in Hf.
      by destruct (decide _). }
    apply Forall_cons in Hts2 as [[ky Hy] Hts2].
    apply StronglySorted_inv in Hs1 as [Hs1 Hall1].
    apply StronglySorted_inv in Hs2 as [Hs2 Hall2].
    assert (Hxin : x ∈ y :: l2).
    { assert (Hin : x ∈ filter (sent_at kx) (y :: l2)).
      { rewrite <- Hf, filter_cons. destruct (decide _); [left | done]. }
      by apply list_elem_of_filter in Hin as [_ ?]. }
    assert (Hyin : y ∈ x :: l1).
    { assert (Hin : y ∈ filter (sent_at ky) (x :: l1)).
      { rewrite Hf, filter_cons. destruct (decide _); [left | done]. }
      by apply list_elem_of_filter in Hin as [_ ?]. }
    destruct (sent_at_head_le y l2 ky x Hy Hall2 Hxin) as (kx' & Hx' & Hle1).
    destruct (sent_at_head_le x l1 kx y Hx Hall1 Hyin) as (ky' & Hy' & Hle2).
    unfold sent_at in *.
    assert (kx' = kx) by congruence. assert (ky' = ky) by congruence.
    assert (kx = ky) by lia. subst kx' ky' ky.
    pose proof (Hf kx) as Hhead. rewrite !filter_cons in Hhead.
    destruct (decide _) as [_|Hn] in Hhead; [|by destruct Hn].
    destruct (decide _) as [_|Hn] in Hhead; [|by destruct Hn].
    injection Hhead as <- _. f_equal.
    apply IH; [done..|]. intros t. specialize (Hf t).
    rewrite !filter_cons in Hf. destruct (decide _); [by injection Hf | done].
Qed.

(** X10. The sort of [load] is the stable sort by [send_at]: for notices
    with timestamps, any arrangement of them that is ascending by
    [send_at] and keeps the notices of one instant in their order is the
    list [sorted] returns. *)
Theorem sorted_is_the_stable_sort l r r' :
  Forall has_timestamp l →
  sorted l = Ok r →
  r' ≡ₚ l →
  StronglySorted send_at_le r' →
  (∀ t, filter (sent_at t) r' = filter (sent_at t) l) →
  r' = r.
Proof.
  intros Hts Hr Hperm Hsorted Hstable.
  destruct (sorted_spec l Hts) as (s & Hs & Hperm_s & Hstable_s & Hsorted_s).
  assert (s = r) as -> by congruence.
  apply stable_sorted_unique; [by rewrite Hperm | by rewrite Hperm_s | done..|].
  intros t. by rewrite Hstable, Hstable_s.
Qed.
End StableSort.

(** ** What [add_notice] adds, and what it keeps *)

Section AddNoticeOutcomes.
Context `{Util, Version} {Store : Type} `{FirstRun Store}.
Implicit Types (notices : list Notice) (now : Z) (st : Store).

Lemma find_duplicate_is_None notices title' message' sender' :
  find_duplicate notices title' message' sender' = None
  ↔ (title', message', sender') ∉ triple <$> notices.
Proof.
  split.
  - intros Hfind Hin. apply list_elem_of_fmap in Hin as (old & Heq & Hin).
    injection Heq as -> -> ->.
    destruct (find_duplicate_Some notices (title old) (message old)
                (sender old) old Hin) as [first Hfirst];
      [done | congruence].
  - intros Hfresh. apply find_duplicate_None. intros old Hin (<- & <- & <-).
    apply Hfresh. apply list_elem_of_fmap. by exists old.
Qed.

(** X11. [add_notice] adds a notice exactly when the show type is valid,
    no notice of the collection has the same title, message and sender,
    and now plus the duration is a [datetime]; it raises exactly when the
    first two hold and the third fails, and then leaves the collection as
    it was. *)
Theorem add_notice_added_iff now notices
    title' message' sender' send_at' show_type' open_url'
    valid_duration version' :
  let call := add_notice now title' message' sender' send_at' show_type'
                         open_url' valid_duration version' notices in
  let clear := show_type' ∈ valid_notice_show_type
               ∧ (title', message', sender') ∉ triple <$> notices in
  let expiry := now + effective_duration valid_duration in
  ((∃ notice, call = (Ok (LogAdded notice), notices ++ [notice]))
   ↔ clear ∧ datetime_in_range expiry = true)
  ∧ (call = (Raise OverflowError, notices)
     ↔ clear ∧ datetime_in_range expiry = false)
  ∧ (∀ e notices', call = (Raise e, notices') →
       e = OverflowError ∧ notices' = notices).
Proof.
  intros call clear expiry. unfold call, clear, expiry, add_notice.
  fold (effective_duration valid_duration).
  rewrite <- find_duplicate_is_None.
  case_bool_decide as Hty; cbn [negb].
  - destruct (find_duplicate notices title' message' sender') as [old|].
    + split_and!.
      * split; [by intros [? [=]] | by intros [[_ [=]] _]].
      * split; [done | by intros [[_ [=]] _]].
      * done.
    + destruct (datetime_in_range _); split_and!.
      * split; [done | by eexists].
      * split; [done | by intros [_ [=]]].
      * done.
      * split; [by intros [? [=]] | by intros [_ [=]]].
      * done.
      * by intros e notices' [= <- <-].
  - split_and!.
    + split; [by intros [? [=]] | by intros [[? _] _]].
    + split; [done | by intros [[? _] _]].
    + done.
Qed.

(** X12. [add_notice] keeps the old notices where they are: in every
    outcome the collection it leaves starts with the collection it was
    given and holds at most one notice more, at its end. *)
Theorem add_notice_appends now notices
    title' message' sender' send_at' show_type' open_url'
    valid_duration version' :
  let notices' := (add_notice now title' message' sender' send_at' show_type'
                              open_url' valid_duration version' notices).2 in
  notices `prefix_of` notices'
  ∧ (length notices' ≤ S (length notices))%nat.
Proof.
  intros notices'. unfold notices', add_notice.
  destruct (negb _); [split; [done | cbn; lia]|].
  destruct (find_duplicate _ _ _ _); [split; [done | cbn; lia]|].
  destruct (datetime_in_range _); cbn [snd].
  - split; [by apply prefix_app_r | rewrite length_app; cbn; lia].
  - split; [done | lia].
Qed.

(** X13. [add_notice] keeps the collection free of doubles: when no two
    notices share title, message and sender before the call, none do
    after it. *)
Theorem add_notice_keeps_triples_distinct now notices
    title' message' sender' send_at' show_type' open_url'
    valid_duration version' :
  NoDup (triple <$> notices) →
  NoDup (triple <$> (add_notice now title' message' sender' send_at' show_type'
                                open_url' valid_duration version' notices).2).
Proof.
  intros Hnodup. unfold add_notice.
  destruct (negb _); [done|].
  destruct (find_duplicate _ _ _ _) eqn:Hfind; [done|].
  destruct (datetime_in_range _); [|done]. cbn [snd].
  rewrite fmap_app. apply NoDup_app. split_and!; [done| |].
  - intros t Ht [->|[]%elem_of_nil]%elem_of_cons.
    by apply find_duplicate_is_None in Hfind.
  - apply NoDup_singleton.
Qed.

(** X14. [add_notice] keeps the show types valid: when every notice of
    the collection has one of the six show types before the call, every
    notice has one after it. *)
Theorem add_notice_keeps_show_types_valid now notices
    title' message' sender' send_at' show_type' open_url'
    valid_duration version' :
  Forall (λ notice, show_type notice ∈ valid_notice_show_type) notices →
  Forall (λ notice, show_type notice ∈ valid_notice_show_type)
         (add_notice now title' message' sender' send_at' show_type'
                     open_url' valid_duration version' notices).2.
Proof.
  intros Hvalid. unfold add_notice.
  case_bool_decide as Hty; cbn [negb]; [|done].
  destruct (find_duplicate _ _ _ _); [done|].
  destruct (datetime_in_range _); [|done]. cbn [snd].
  apply Forall_app. split; [done|]. by constructor.
Qed.


(** X16. The notice [add_notice] adds expires the duration after now,
    when the formatted expiry parses back to its instant: [need_show] is
    false for it at every later instant, from the call on when the
    duration is negative, whatever the show type; an ALWAYS notice
    without a version ceiling is shown at every instant up to the
    expiry. *)
Theorem added_notice_expiry now notices
    title' message' sender' send_at' show_type' open_url'
    valid_duration version' notice notices' :
  let expiry := now + effective_duration valid_duration in
  add_notice now title' message' sender' send_at' show_type' open_url'
             valid_duration version' notices
  = (Ok (LogAdded notice), notices') →
  parse_time (format_time expiry) = Some expiry →
  (∀ now' st, expiry < now' → need_show now' notice st = (Ok false, st))
  ∧ (effective_duration valid_duration < 0 →
     ∀ st, need_show now notice st = (Ok false, st))
  ∧ (show_type' = ALWAYS → version' = "" →
     ∀ now' st, now' ≤ expiry → need_show now' notice st = (Ok true, st)).
Proof.
  intros expiry Hadd Hparse.
  assert (Hfields : expire_at notice = format_time expiry
                    ∧ show_type notice = show_type'
                    ∧ show_only_before_version notice = version').
  { unfold add_notice in Hadd. fold (effective_duration valid_duration) in Hadd.
    destruct (negb _); [done|].
    destruct (find_duplicate _ _ _ _); [done|].
    destruct (datetime_in_range _); [|done]. by injection Hadd as <- _. }
  destruct Hfields as (Hexpire & Hty & Hver).
  rewrite <- Hexpire in Hparse.
  assert (Hlate : ∀ now' st, expiry < now' →
                             need_show now' notice st = (Ok false, st)).
  { intros now' st Hlt. by rewrite (need_show_past_expiry _ _ _ Hparse Hlt). }
  split_and!; [done| |].
  - intros Hneg st. apply Hlate. unfold expiry. lia.
  - intros -> -> now' st Hle.
    rewrite (need_show_dispatch _ _ _ Hparse Hle) by by left.
    rewrite Hty. done.
Qed.
End AddNoticeOutcomes.

(** ** Saving, and running [main] again *)

Section MainOutcomes.
Context `{Util, Version, Download}.
Implicit Types (notices : list Notice) (fs : Files) (now : Z).

(** [save] replaces the whole file: of two saves only the second is
    left; it never touches the cache file, and where the file cannot be
    written it changes nothing. *)
Lemma save_overwrites notices1 notices2 fs :
  save notices2 (save notices1 fs) = save notices2 fs
  ∧ cache_file (save notices1 fs) = cache_file fs
  ∧ save_writable (save notices1 fs) = save_writable fs
  ∧ (save_writable fs = false → save notices1 fs = fs).
Proof.
  unfold save, try_except, save_body.
  destruct fs as [cache local [|]]; cbn; split_and!; done.
Qed.

Lemma saved_notices_save notices fs :
  save_writable fs = true → saved_notices (save notices fs) = notices.
Proof.
  intros Hw. unfold saved_notices, save, try_except, save_body.
  rewrite Hw. cbn. rewrite map_map.
  rewrite (map_ext _ id) by apply auto_update_config_to_raw_type.
  by rewrite map_id.
Qed.

Lemma load_local_perm fs :
  (load false [] fs).1 ≡ₚ saved_notices fs ∧ (load false [] fs).2 = fs.
Proof.
  unfold load, try_except, load_body, saved_notices.
  destruct (save_file fs) as [[|records]|]; [done| |done]. cbn [app].
  destruct (sorted _) as [s|] eqn:Hs; [|done].
  split; [by apply sorted_perm | done].
Qed.

(** What [main] saves: the loaded collection, with its notice at the end
    unless a notice with the same title, message and sender is there. *)
Lemma main_returns now fs fs1 :
  main now fs = (Ok (), fs1) →
  ∃ notices, fs1 = save notices fs
             ∧ (main_title, main_message, "风之凌殇") ∈ triple <$> notices
             ∧ (notices = (load false [] fs).1
                ∨ (main_title, main_message, "风之凌殇")
                    ∉ triple <$> (load false [] fs).1).
Proof.
  unfold main, NoticeManager_init.
  destruct (load_local_perm fs) as [_ Hfs].
  destruct (load false [] fs) as [loaded fs'] eqn:Hload. cbn in Hfs. subst fs'.
  cbn [fst]. rewrite bool_decide_eq_false_2 by done. cbn [negb].
  unfold add_notice. rewrite bool_decide_eq_true_2
    by (unfold valid_notice_show_type; set_solver).
  cbn [negb].
  destruct (find_duplicate loaded _ _ _) as [old|] eqn:Hfind.
  - cbn [outcome_bind]. intros [= <-]. exists loaded. split_and!; [done| |by left].
    apply find_some in Hfind as [Hin Htriple].
    apply list_elem_of_In in Hin.
    apply andb_prop in Htriple as [Htm Hs]. apply andb_prop in Htm as [Ht Hm].
    apply bool_decide_eq_true_1 in Ht, Hm, Hs.
    apply list_elem_of_fmap. exists old. split; [|done].
    unfold triple. by rewrite Ht, Hm, Hs.
  - destruct (datetime_in_range _); cbn [outcome_bind]; [|done].
    intros [= <-]. eexists. split_and!; [done| |].
    + rewrite fmap_app. apply elem_of_app. right. by left.
    + right. intros Hin. apply list_elem_of_fmap in Hin as (old & Heq & Hin).
      injection Heq as Ht Hm Hs. apply list_elem_of_In in Hin.
      pose proof (find_none _ _ Hfind _ Hin) as Hno. cbn in Hno.
      by rewrite <- Ht, <- Hm, <- Hs, !bool_decide_eq_true_2 in Hno.
Qed.

(** X17. Running [main] again never doubles its notice: after a run that
    returned, the file it could write holds a notice with the title,
    message and sender of [main], and a second run, at any instant,
    leaves a file with the same notices, each as often as before. *)
Theorem main_twice now1 now2 fs fs1 :
  main now1 fs = (Ok (), fs1) →
  (save_writable fs = true →
   (main_title, main_message, "风之凌殇") ∈ triple <$> saved_notices fs1)
  ∧ saved_notices (main now2 fs1).2 ≡ₚ saved_notices fs1.
Proof.
  intros Hmain.
  destruct (main_returns _ _ _ Hmain) as (notices & -> & Hin & _).
  split; [intros Hw; by rewrite saved_notices_save|].
  destruct (save_writable fs) eqn:Hw.
  - rewrite (saved_notices_save _ _ Hw).
    destruct (main now2 (save notices fs)) as [[[]|e] fs2] eqn:Hsecond.
    + destruct (main_returns _ _ _ Hsecond) as (notices2 & -> & _ & Hnew).
      destruct (load_local_perm (save notices fs)) as [Hperm _].
      rewrite (saved_notices_save _ _ Hw) in Hperm.
      assert (Hw' : save_writable (save notices fs) = true).
      { unfold save, try_except, save_body. by rewrite Hw. }
      cbn [snd]. rewrite (saved_notices_save _ _ Hw').
      destruct Hnew as [-> | Hfresh]; [done|].
      destruct Hfresh. by rewrite Hperm.
    + cbn [snd]. unfold main in Hsecond.
      destruct (NoticeManager_init false (save notices fs)) as [loaded fs'] eqn:Hl.
      destruct (load_local_perm (save notices fs)) as [_ Hfs].
      unfold NoticeManager_init in Hl. rewrite Hl in Hfs. cbn in Hfs. subst fs'.
      destruct (if negb _ then _ else _) as [[[]|e'] ns]; [done|].
      injection Hsecond as _ <-. by rewrite (saved_notices_save _ _ Hw).
  - assert (Hsame : ∀ ns fs', save_writable fs' = false → save ns fs' = fs').
    { intros ns fs' Hw'. unfold save, try_except, save_body. by rewrite Hw'. }
    rewrite Hsame by done.
    destruct (main now2 fs) as [[[]|e] fs2] eqn:Hsecond.
    + destruct (main_returns _ _ _ Hsecond) as (notices2 & -> & _).
      cbn [snd]. by rewrite Hsame.
    + cbn [snd]. unfold main in Hsecond.
      destruct (NoticeManager_init false fs) as [loaded fs'] eqn:Hl.
      destruct (load_local_perm fs) as [_ Hfs].
      unfold NoticeManager_init in Hl. rewrite Hl in Hfs. cbn in Hfs. subst fs'.
      destruct (if negb _ then _ else _) as [[[]|e'] ns]; [done|].
      by injection Hsecond as _ <-.
Qed.
End MainOutcomes.

(** ** What [test] shows, on the first-run tracker *)


Section TestOutcomes.
Context `{Util, Version, Download}.
Local Existing Instance first_run_db.
Implicit Types (notices : list Notice) (db : gmap string Z) (now : Z).







(** X19. Notices with one key share one window: once a ONCE notice was
    shown, an unexpired, version-eligible ONCE notice with the same key
    (the same title and [send_at], or a colliding pair) is not shown. *)
Theorem need_show_shared_key now now' a b expire_a expire_b db :
  get_first_run_key a = get_first_run_key b →
  show_type a = ONCE → show_type b = ONCE →
  parse_time (expire_at a) = Some expire_a → now ≤ expire_a →
  parse_time (expire_at b) = Some expire_b →
  version_eligible a → version_eligible b →
  db !! get_first_run_key a = None →
  ∃ db', need_show now a db = (Ok true, db')
         ∧ need_show now' b db' = (Ok false, db').
Proof.
  intros Hkey Hta Htb Hpa Hlea Hpb Hva Hvb Hfresh.
  exists (<[get_first_run_key a := now]> db). split.
  - rewrite (need_show_dispatch _ _ _ Hpa Hlea Hva), Hta.
    rewrite bool_decide_eq_true_2 by done. cbn.
    unfold tracker, Tracker.is_first_in_window. by rewrite Hfresh.
  - destruct (Z.lt_ge_cases expire_b now') as [Hlt | Hge].
    + by rewrite (need_show_past_expiry _ _ _ Hpb Hlt).
    + rewrite (need_show_dispatch _ _ _ Hpb Hge Hvb), Htb.
      rewrite bool_decide_eq_true_2 by done. cbn.
      unfold tracker, Tracker.is_first_in_window.
      by rewrite <- Hkey, lookup_insert_eq.
Qed.
End TestOutcomes.


(** ** The further properties on the sample data *)

Section FurtherOnSample.
Import Sample.
Local Existing Instances windows_util release first_run_db online.

Lemma need_show_malformed_expiry_witness :
  need_show now notice_no_expiry (∅ : gmap string Z) = (Raise ValueError, ∅).
Proof.
  apply need_show_malformed_expiry. reflexivity.
Defined.

Lemma need_show_true_only_if_witness :
  ∃ expire, parse_time (expire_at notice_A) = Some expire
            ∧ now ≤ expire
            ∧ version_eligible notice_A
            ∧ show_type notice_A ∈ valid_notice_show_type
            ∧ show_type notice_A ≠ DEPRECATED.
Proof.
  apply (need_show_true_only_if now notice_A (∅ : gmap string Z)
           {[get_first_run_key notice_A := now]}).
  reflexivity.
Defined.

Lemma need_show_store_changed_only_if_witness :
  ∃ expire, parse_time (expire_at notice_A) = Some expire
            ∧ now ≤ expire
            ∧ version_eligible notice_A
            ∧ show_type notice_A ∈ tracked_show_type.
Proof.
  apply (need_show_store_changed_only_if now notice_A (∅ : gmap string Z)
           (Ok true) {[get_first_run_key notice_A := now]}).
  - reflexivity.
  - apply insert_non_empty.
Defined.

Lemma show_notices_malformed_expiry_witness :
  (show_notices now [notice_A; notice_no_expiry] (∅ : gmap string Z)).1 = [].
Proof.
  apply show_notices_malformed_expiry.
  intros Hall. apply Forall_cons in Hall as [_ Hall].
  apply Forall_cons in Hall as [[expire Hparse] _]. discriminate Hparse.
Defined.



Lemma load_unsorted_on_malformed_witness :
  (load false [] files_no_send_at).1 = [notice_B; notice_no_send_at].
Proof.
  apply (load_unsorted_on_malformed false [] files_no_send_at).
  - eexists. reflexivity.
  - cbn. lia.
  - intros Hall. apply Forall_cons in Hall as [_ Hall].
    apply Forall_cons in Hall as [[t Hparse] _]. discriminate Hparse.
Defined.

Lemma sorted_is_the_stable_sort_witness :
  ∃ r, sorted [notice_B; notice_A] = Ok r ∧ [notice_A; notice_B] = r.
Proof.
  eexists. split; [reflexivity|].
  apply (sorted_is_the_stable_sort [notice_B; notice_A]).
  - repeat constructor; eexists; reflexivity.
  - reflexivity.
  - apply perm_swap.
  - repeat constructor. exists 1609459200, 1622505600.
    split; [reflexivity|]. split; [reflexivity | intros [=]].
  - intros t. rewrite !filter_cons, !filter_nil. unfold sent_at.
    repeat case_decide; try reflexivity;
      exfalso;
      match goal with
      | Ha : parse_time (send_at notice_A) = Some t,
        Hb : parse_time (send_at notice_B) = Some t |- _ =>
          vm_compute in Ha, Hb; congruence
      end.
Defined.

Lemma add_notice_keeps_triples_distinct_witness :
  NoDup (triple <$> (add_notice now "C" "third" "风之凌殇" "" ALWAYS "" None ""
                                [notice_A]).2).
Proof.
  apply add_notice_keeps_triples_distinct. apply NoDup_singleton.
Defined.

Lemma add_notice_keeps_show_types_valid_witness :
  Forall (λ notice, show_type notice ∈ valid_notice_show_type)
         (add_notice now "C" "third" "风之凌殇" "" ALWAYS "" None ""
                     [notice_A]).2.
Proof.
  apply add_notice_keeps_show_types_valid.
  constructor; [|constructor]. unfold valid_notice_show_type.
  rewrite !elem_of_union, !elem_of_singleton. cbn. tauto.
Defined.

Lemma added_notice_expiry_witness :
  need_show (now + days 8) notice_C (∅ : gmap string Z) = (Ok false, ∅)
  ∧ need_show (now + days 7) notice_C (∅ : gmap string Z) = (Ok true, ∅).
Proof.
  destruct (added_notice_expiry (Store := gmap string Z) now []
              "C" "third" "风之凌殇" "" ALWAYS "" None "" notice_C [notice_C])
    as (Hlate & _ & Hshown).
  - reflexivity.
  - reflexivity.
  - split.
    + apply Hlate. reflexivity.
    + apply Hshown; [reflexivity | reflexivity | intros [=]].
Defined.

Lemma main_twice_witness :
  saved_notices (main (now + 60) (main now files).2).2
    ≡ₚ saved_notices (main now files).2.
Proof.
  apply (main_twice now (now + 60) files (main now files).2).
  vm_compute. reflexivity.
Defined.


Lemma need_show_shared_key_witness :
  ∃ db' : gmap string Z,
    need_show now notice_v1 ∅ = (Ok true, db')
    ∧ need_show now notice_v1_beta db' = (Ok false, db').
Proof.
  apply (need_show_shared_key now now notice_v1 notice_v1_beta
           4776364800 4776364800 ∅);
    [reflexivity | reflexivity | reflexivity | reflexivity | intros [=]
    | reflexivity | left; reflexivity | left; reflexivity | apply lookup_empty].
Defined.
End FurtherOnSample.
